(** * The tank-talk counter bot: a shallow embedding and its properties

    The development follows [discord_tank_counter_bot_python.py]: the
    per-guild record [GuildState], the registry [State] with its JSON file,
    the renderer [_render_text], the synchroniser [_update_display] and the
    command handlers of the [/tank] group.

    Conventions of the embedding.
    - Python's [int] is [Z]. The integers of the registry are taken to
      have at most 4300 digits, so that [str] and [int] convert them; the
      limit of [int] on longer texts is modelled where the text of a user
      is converted, in [bind] ([Py.int_of_text]).
    - A Python [str] is a [string] whose characters are read as the code
      points below 256, so that one [ascii] is one character of the text.
    - Everything the program calls and does not define (the Discord API,
      and what [str.format] does with attribute access or a format spec on
      an [int]) is a field of the record [Env]; theorems quantify over it.
      An environment answers a call by its arguments; where a handler
      makes the same call twice ([bind] fetches the message it checks and
      [_update_display] fetches it again), the platform may answer the
      second call otherwise, and the properties of that handler are
      stated so as to hold whatever the second answer is.
    - A handler is a function from the world (registry, file, log of what
      the bot sent) to an outcome and a new world; an exception keeps the
      mutations made before it was raised.
    - The registry is a finite map: the insertion order of the [dict] is
      not kept, and it matters to no property below. Writing the state
      file always succeeds. *)

From Stdlib Require Import ZArith String Ascii List Lia DecimalString DecimalZ.
From stdpp Require Import base option list gmap.

Local Open Scope Z_scope.

(** ** Outcomes *)

Inductive exn : Type :=
  | NotFound | Forbidden | HTTPException
  | KeyError | IndexError | ValueError | TypeError | AttributeError
  | AssertionError.

Inductive result (A : Type) : Type :=
  | Ok (a : A)
  | Raise (e : exn).
Arguments Ok {A} a.
Arguments Raise {A} e.

(** ** Text *)

Module Text.

Definition code (c : ascii) : Z := Z.of_N (N_of_ascii c).

Definition chr (n : Z) : ascii := ascii_of_N (Z.to_N n).

Definition in_range (lo hi : Z) (c : ascii) : bool :=
  (lo <=? code c) && (code c <=? hi).

(** [\d] on a text of code points below 256 is [0-9]. *)
Definition is_digit (c : ascii) : bool := in_range 48 57 c.

(** The character class [a-z0-9-]. *)
Definition is_name_char (c : ascii) : bool :=
  in_range 97 122 c || is_digit c || (code c =? 45).

(** [str.lower] on one code point below 256: [A-Z] and the upper-case
    letters of the Latin-1 block ([U+00C0]..[U+00DE] but for [U+00D7]). *)
Definition lower_char (c : ascii) : ascii :=
  if in_range 65 90 c then chr (code c + 32)
  else if in_range 192 222 c && negb (code c =? 215) then chr (code c + 32)
  else c.

Fixpoint smap (f : ascii -> ascii) (s : string) : string :=
  match s with
  | EmptyString => EmptyString
  | String c s' => String (f c) (smap f s')
  end.

(** [s[:n]] *)
Fixpoint slice_to (n : nat) (s : string) : string :=
  match n, s with
  | O, _ => EmptyString
  | _, EmptyString => EmptyString
  | S n', String c s' => String c (slice_to n' s')
  end.

Fixpoint sall (p : ascii -> bool) (s : string) : bool :=
  match s with
  | EmptyString => true
  | String c s' => p c && sall p s'
  end.

Definition lower (s : string) : string := smap lower_char s.

(** [re.sub(r"[^a-z0-9-]", "-", s)] *)
Definition sub_unsafe (s : string) : string :=
  smap (fun c => if is_name_char c then c else "-"%char) s.

(** The channel name computed in [_update_display]:
    [re.sub(r"[^a-z0-9-]", "-", text.lower())[:95]]. *)
Definition safe_name (text : string) : string :=
  slice_to 95 (sub_unsafe (lower text)).

End Text.

(** ** The parts of Python the program relies on *)

Module Py.
Import Text.

(** [str(n)] for an [int]. *)
Definition str_of_int (z : Z) : string := NilZero.string_of_int (Z.to_int z).

(** The white space that [int] skips around a number, among the code
    points below 256: tab to carriage return, the space, and the two
    spaces that are not ASCII. *)
Definition is_space (c : ascii) : bool :=
  in_range 9 13 c || (code c =? 32) || (code c =? 133) || (code c =? 160).

Fixpoint lstrip (s : string) : string :=
  match s with
  | String c s' => if is_space c then lstrip s' else s
  | EmptyString => EmptyString
  end.

Fixpoint rstrip (s : string) : string :=
  match s with
  | EmptyString => EmptyString
  | String c s' =>
      match rstrip s' with
      | EmptyString => if is_space c then EmptyString else String c EmptyString
      | r => String c r
      end
  end.

Definition strip (s : string) : string := rstrip (lstrip s).

(** The digits of an integer literal: a digit, then digits each optionally
    preceded by one underscore. [after_digit] tells whether the previous
    character was a digit. *)
Fixpoint digits (after_digit : bool) (s : string) : option Decimal.uint :=
  match s with
  | EmptyString => if after_digit then Some Decimal.Nil else None
  | String c s' =>
      if is_digit c then uint_of_char c (digits true s')
      else if (c =? "_")%char then
        if after_digit then digits false s' else None
      else None
  end.

(** The conversion of [int(s)] for a [str]: surrounding white space, an
    optional sign, the digits in base 10; [ValueError] otherwise. *)
Definition int_of_str (s : string) : result Z :=
  let t := strip s in
  let '(negative, body) :=
    match t with
    | String c r =>
        if (c =? "-")%char then (true, r)
        else if (c =? "+")%char then (false, r)
        else (false, t)
    | EmptyString => (false, t)
    end in
  match digits false body with
  | Some u => Ok (if negative then - Z.of_uint u else Z.of_uint u)
  | None => Raise ValueError
  end.

(** The default of [sys.int_max_str_digits]. *)
Definition MAX_STR_DIGITS : Z := 4300.

Fixpoint digit_count (s : string) : Z :=
  match s with
  | EmptyString => 0
  | String c s' => (if is_digit c then 1 else 0) + digit_count s'
  end.

(** [int(s)] for a text of any length: [ValueError] when the text has
    more than 4300 digits, the conversion otherwise. *)
Definition int_of_text (s : string) : result Z :=
  if MAX_STR_DIGITS <? digit_count s then Raise ValueError else int_of_str s.

(** *** [str.format], called as [template.format(days=n)] with an [int]

    The functions follow CPython's [MarkupIterator_next], [parse_field],
    [field_name_split], [get_integer] and [render_field]. *)

Record field : Type := Field {
  f_name : string;          (* the text before [!], [:] or the closing brace *)
  f_conv : option ascii;    (* the character after [!] *)
  f_spec : string           (* the text after [:], not expanded *)
}.

Definition is_brace (c : ascii) : bool := (c =? "{")%char || (c =? "}")%char.

(** The literal text up to the first brace, the brace and what follows it. *)
Fixpoint scan_literal (s : string) : string * option (ascii * string) :=
  match s with
  | EmptyString => (EmptyString, None)
  | String c s' =>
      if is_brace c then (EmptyString, Some (c, s'))
      else let '(lit, r) := scan_literal s' in (String c lit, r)
  end.

Inductive name_end : Type := EndBrace | EndBang | EndColon.

(** The field name: it ends at [}], [!] or [:]; a [{] in it is an error,
    and between [[] and []] every character is skipped over. *)
Fixpoint scan_name (in_bracket : bool) (s : string)
  : result (string * name_end * string) :=
  match s with
  | EmptyString => Raise ValueError
  | String c s' =>
      let continue b :=
        match scan_name b s' with
        | Ok (n, e, r) => Ok (String c n, e, r)
        | Raise x => Raise x
        end in
      if in_bracket then continue (negb (c =? "]")%char)
      else if (c =? "{")%char then Raise ValueError
      else if (c =? "[")%char then continue true
      else if (c =? "}")%char then Ok (EmptyString, EndBrace, s')
      else if (c =? "!")%char then Ok (EmptyString, EndBang, s')
      else if (c =? ":")%char then Ok (EmptyString, EndColon, s')
      else continue false
  end.

(** The format spec: it ends at the brace that closes the field; [depth]
    counts the braces opened inside the spec. *)
Fixpoint scan_spec (depth : nat) (s : string) : result (string * string) :=
  match s with
  | EmptyString => Raise ValueError
  | String c s' =>
      let continue d :=
        match scan_spec d s' with
        | Ok (sp, r) => Ok (String c sp, r)
        | Raise x => Raise x
        end in
      if (c =? "{")%char then continue (S depth)
      else if (c =? "}")%char then
        match depth with
        | O => Ok (EmptyString, s')
        | S d => continue d
        end
      else continue depth
  end.

Definition with_spec (name : string) (conv : option ascii) (s : string)
  : result (field * string) :=
  match scan_spec 0 s with
  | Ok (sp, r) => Ok (Field name conv sp, r)
  | Raise x => Raise x
  end.

(** [parse_field], on the text after the opening brace. *)
Definition parse_field (s : string) : result (field * string) :=
  match scan_name false s with
  | Raise x => Raise x
  | Ok (name, EndBrace, r) => Ok (Field name None EmptyString, r)
  | Ok (name, EndColon, r) => with_spec name None r
  | Ok (name, EndBang, r) =>
      match r with
      | EmptyString => Raise ValueError
      | String conv r1 =>
          match r1 with
          | EmptyString => with_spec name (Some conv) r1
          | String c r2 =>
              if (c =? "}")%char then Ok (Field name (Some conv) EmptyString, r2)
              else if (c =? ":")%char then with_spec name (Some conv) r2
              else Raise ValueError
          end
      end
  end.

Inductive token : Type :=
  | TEnd
  | TError (e : exn)
  | TItem (lit : string) (fld : option field) (rest : string).

(** One step of the iterator over the template. *)
Definition markup_next (s : string) : token :=
  match s with
  | EmptyString => TEnd
  | _ =>
      match scan_literal s with
      | (lit, None) => TItem lit None EmptyString
      | (lit, Some (c, r)) =>
          match r with
          | EmptyString => TError ValueError      (* a single brace at the end *)
          | String c' r' =>
              if (c =? c')%char then TItem (lit ++ String c EmptyString) None r'
              else if (c =? "}")%char then TError ValueError
              else
                match parse_field r with
                | Ok (f, rest) => TItem lit (Some f) rest
                | Raise x => TError x
                end
          end
      end
  end.

(** The first part of a field name, up to the first [.] or [[]. *)
Fixpoint split_first (name : string) : string * string :=
  match name with
  | EmptyString => (EmptyString, EmptyString)
  | String c n' =>
      if (c =? ".")%char || (c =? "[")%char then (EmptyString, name)
      else let '(a, b) := split_first n' in (String c a, b)
  end.

Definition PY_SSIZE_T_MAX : Z := 2 ^ 63 - 1.

Fixpoint get_integer_from (acc : Z) (s : string) : result (option Z) :=
  match s with
  | EmptyString => Ok (Some acc)
  | String c s' =>
      if is_digit c then
        let d := code c - 48 in
        if (PY_SSIZE_T_MAX - d) / 10 <? acc then Raise ValueError
        else get_integer_from (acc * 10 + d) s'
      else Ok None
  end.

Definition get_integer (s : string) : result (option Z) :=
  match s with
  | EmptyString => Ok None
  | _ => get_integer_from 0 s
  end.

(** What [format] does beyond this model: attribute and index access on
    the [int] and a non-empty format spec. It receives the accessors, the
    conversion, the spec and the value. *)
Definition format_extension : Type :=
  string -> option ascii -> string -> Z -> result string.

(** [!r], [!s] and [!a] give [str(days)] for an [int]; the character NUL
    after [!] stands for no conversion; any other character is an error. *)
Definition convert (conv : option ascii) (days : Z) : result string :=
  match conv with
  | None => Ok (str_of_int days)
  | Some c =>
      if (c =? "r")%char || (c =? "s")%char || (c =? "a")%char
         || (c =? Ascii.zero)%char
      then Ok (str_of_int days)
      else Raise ValueError
  end.

(** One replacement field, with no positional argument and the only
    keyword argument [days]. *)
Definition render_field (ext : format_extension) (days : Z) (f : field)
  : result string :=
  let '(first, rest) := split_first (f_name f) in
  match get_integer first with
  | Raise x => Raise x
  | Ok (Some _) => Raise IndexError
  | Ok None =>
      match first with
      | EmptyString => Raise IndexError
      | _ =>
          if (first =? "days")%string then
            match rest, f_spec f with
            | EmptyString, EmptyString => convert (f_conv f) days
            | _, _ => ext rest (f_conv f) (f_spec f) days
            end
          else Raise KeyError
      end
  end.

Fixpoint do_markup (ext : format_extension) (days : Z) (fuel : nat) (s : string)
  : option (result string) :=
  match fuel with
  | O => None
  | S fuel' =>
      match markup_next s with
      | TEnd => Some (Ok EmptyString)
      | TError e => Some (Raise e)
      | TItem lit fld rest =>
          match
            match fld with
            | None => Ok EmptyString
            | Some f => render_field ext days f
            end
          with
          | Raise e => Some (Raise e)
          | Ok txt =>
              match do_markup ext days fuel' rest with
              | Some (Ok out) => Some (Ok (lit ++ txt ++ out)%string)
              | other => other
              end
          end
      end
  end.

(** [s.format(days=days)]. Every item consumes a character, so the fuel
    [S (length s)] is never used up ([do_markup_enough]). *)
Definition format (ext : format_extension) (s : string) (days : Z)
  : result string :=
  match do_markup ext days (S (String.length s)) s with
  | Some r => r
  | None => Raise ValueError
  end.

End Py.

(** ** The JSON image of the state file *)

(** What [json.loads] returns, floats apart. A [dict] is the list of its
    items in insertion order; [None] is [JNull]. [json.dumps] followed by
    [json.loads] is the identity on these values, so the file is modelled
    as holding the value itself. *)
#[warnings="-register-all"] Inductive json : Type :=
  | JNull
  | JBool (b : bool)
  | JInt (z : Z)
  | JStr (s : string)
  | JList (l : list json)
  | JObj (items : list (string * json)).

Definition truthy (j : json) : bool :=
  match j with
  | JNull => false
  | JBool b => b
  | JInt z => negb (z =? 0)
  | JStr s => negb (s =? "")%string
  | JList l => match l with [] => false | _ => true end
  | JObj items => match items with [] => false | _ => true end
  end.

(** [d.get(key)] on the items of a [dict]. *)
Fixpoint dict_get (key : string) (items : list (string * json)) : option json :=
  match items with
  | [] => None
  | (k, v) :: rest => if (k =? key)%string then Some v else dict_get key rest
  end.

Inductive file_image : Type :=
  | Absent                 (* [STATE_FILE.exists()] is false *)
  | Corrupt                (* the text is not JSON *)
  | Image (j : json).

Definition DEFAULT_TEMPLATE : string :=
  "{days} days since Sean and Patrick talked about tanks".

(** ** The record of a guild *)

Module GuildState.

Record t : Type := Make {
  guild_id : Z;
  days : Z;
  message_id : option Z;
  channel_id : option Z;
  mode : string;
  template : string;
  channel_name_channel_id : option Z
}.

(** [int(x)] for a value read from the file. *)
Definition int_of_json (j : json) : result Z :=
  match j with
  | JInt z => Ok z
  | JBool b => Ok (if b then 1 else 0)
  | JStr s => Py.int_of_str s
  | JNull | JList _ | JObj _ => Raise TypeError
  end.

(** A field annotated [int | None]: [None] stands for a value of another
    type, which the annotations exclude and the record cannot hold. *)
Definition opt_int_field (key : string) (items : list (string * json))
  : option (option Z) :=
  match dict_get key items with
  | None | Some JNull => Some None
  | Some (JInt z) => Some (Some z)
  | Some _ => None
  end.

(** A field annotated [str], with the default of [data.get]. *)
Definition str_field (key dflt : string) (items : list (string * json))
  : option string :=
  match dict_get key items with
  | None => Some dflt
  | Some (JStr s) => Some s
  | Some _ => None
  end.

(** [GuildState.__init__(guild_id, data)]. The outer [option] is [None]
    when the data give a field a value outside its annotated type. *)
Definition init (gid : Z) (data : json) : option (result t) :=
  let data := if truthy data then data else JObj [] in
  match data with
  | JObj items =>
      match int_of_json (default (JInt 0) (dict_get "days" items)) with
      | Raise e => Some (Raise e)
      | Ok d =>
          mid ← opt_int_field "message_id" items;
          cid ← opt_int_field "channel_id" items;
          md ← str_field "mode" "message" items;
          tpl ← str_field "template" DEFAULT_TEMPLATE items;
          ccid ← opt_int_field "channel_name_channel_id" items;
          Some (Ok (Make gid d mid cid md tpl ccid))
      end
  | _ => Some (Raise AttributeError)
  end.

(** [GuildState(guild_id)], the record created on first access. *)
Definition fresh (gid : Z) : t :=
  Make gid 0 None None "message" DEFAULT_TEMPLATE None.

Definition json_of_opt (o : option Z) : json :=
  match o with
  | None => JNull
  | Some z => JInt z
  end.

Definition to_dict (gs : t) : json :=
  JObj [ ("days", JInt (days gs));
         ("message_id", json_of_opt (message_id gs));
         ("channel_id", json_of_opt (channel_id gs));
         ("mode", JStr (mode gs));
         ("template", JStr (template gs));
         ("channel_name_channel_id", json_of_opt (channel_name_channel_id gs)) ]%string.

Definition set_days (d : Z) (gs : t) : t :=
  Make (guild_id gs) d (message_id gs) (channel_id gs) (mode gs) (template gs)
       (channel_name_channel_id gs).
Definition set_message_id (m : option Z) (gs : t) : t :=
  Make (guild_id gs) (days gs) m (channel_id gs) (mode gs) (template gs)
       (channel_name_channel_id gs).
Definition set_channel_id (c : option Z) (gs : t) : t :=
  Make (guild_id gs) (days gs) (message_id gs) c (mode gs) (template gs)
       (channel_name_channel_id gs).
Definition set_mode (m : string) (gs : t) : t :=
  Make (guild_id gs) (days gs) (message_id gs) (channel_id gs) m (template gs)
       (channel_name_channel_id gs).
Definition set_template (tpl : string) (gs : t) : t :=
  Make (guild_id gs) (days gs) (message_id gs) (channel_id gs) (mode gs) tpl
       (channel_name_channel_id gs).
Definition set_channel_name_channel_id (c : option Z) (gs : t) : t :=
  Make (guild_id gs) (days gs) (message_id gs) (channel_id gs) (mode gs)
       (template gs) c.

End GuildState.

(** ** The registry and its file *)

Module State.

(** The loop of [load] over [raw.items()], starting from the registry
    [acc]; a later item replaces an earlier one with the same guild id. *)
Fixpoint load_items (acc : gmap Z GuildState.t) (items : list (string * json))
  : option (result (gmap Z GuildState.t)) :=
  match items with
  | [] => Some (Ok acc)
  | (gid_str, data) :: rest =>
      match Py.int_of_str gid_str with
      | Raise e => Some (Raise e)
      | Ok gid =>
          match GuildState.init gid data with
          | None => None
          | Some (Raise e) => Some (Raise e)
          | Some (Ok gs) => load_items (<[gid := gs]> acc) rest
          end
      end
  end.

(** [State.load], on the registry [by_guild] and the file. *)
Definition load (by_guild : gmap Z GuildState.t) (f : file_image)
  : option (result (gmap Z GuildState.t)) :=
  match f with
  | Absent => Some (Ok ∅)
  | Corrupt => Some (Raise ValueError)
  | Image (JObj items) => load_items by_guild items
  | Image _ => Some (Raise AttributeError)
  end.

(** The file that [State.save] writes. The items follow the order of the
    finite map, not the insertion order of the [dict]. *)
Definition save (by_guild : gmap Z GuildState.t) : file_image :=
  Image (JObj (map (fun '(gid, gs) => (Py.str_of_int gid, GuildState.to_dict gs))
                   (map_to_list by_guild))).

(** [State()], which starts from the empty registry and loads the file. *)
Definition new (f : file_image) : option (result (gmap Z GuildState.t)) :=
  load ∅ f.

End State.

(** ** The pattern of [bind]

    [re.match] tries the alternatives in order and backtracks; a matcher
    takes the continuation that matches the rest of the pattern, so that a
    failure of the rest makes it try its next alternative. *)

Module Re.
Import Text.

Definition groups : Type := list string.
Definition cont : Type := groups -> string -> option groups.
Definition re : Type := cont -> cont.

Fixpoint strip_prefix (p s : string) : option string :=
  match p, s with
  | EmptyString, _ => Some s
  | String a p', String b s' => if (a =? b)%char then strip_prefix p' s' else None
  | String _ _, EmptyString => None
  end.

(** Literal text. *)
Definition lit (p : string) : re :=
  fun k gs s =>
    match strip_prefix p s with
    | Some r => k gs r
    | None => None
    end.

(** [a|b] *)
Definition alt (a b : re) : re :=
  fun k gs s =>
    match a k gs s with
    | Some x => Some x
    | None => b k gs s
    end.

(** [(?:a)?], greedy: [a] first, then nothing. *)
Definition opt (a : re) : re := alt a (fun k => k).

Definition seq (a b : re) : re := fun k => a (b k).

(** [\d*], greedy: the longest run first, then shorter ones. *)
Fixpoint star_digits (s : string) (k : string -> string -> option groups)
  : option groups :=
  match s with
  | String c s' =>
      if is_digit c then
        match star_digits s' (fun m r => k (String c m) r) with
        | Some x => Some x
        | None => k EmptyString s
        end
      else k EmptyString s
  | EmptyString => k EmptyString s
  end.

(** [(\d+)], a capturing group. *)
Definition digits1 : re :=
  fun k gs s =>
    match s with
    | String c s' =>
        if is_digit c
        then star_digits s' (fun m r => k (gs ++ [String c m]) r)
        else None
    | EmptyString => None
    end.

(** [re.match(r, s)]: anchored at the start, not at the end. *)
Definition rmatch (r : re) (s : string) : option groups :=
  r (fun gs _ => Some gs) [] s.

(** [https://(?:canary\.|ptb\.)?discord(?:app)?\.com/channels/(\d+)/(\d+)/(\d+)] *)
Definition message_url : re :=
  seq (lit "https://")
  (seq (opt (alt (lit "canary.") (lit "ptb.")))
  (seq (lit "discord")
  (seq (opt (lit "app"))
  (seq (lit ".com/channels/")
  (seq digits1 (seq (lit "/") (seq digits1 (seq (lit "/") digits1)))))))).

End Re.

(** [m = re.match(...)] and [map(int, m.groups())] of [bind]: [Ok None]
    when the pattern does not match. *)
Definition parse_message_link (url : string) : result (option (Z * Z * Z)) :=
  match Re.rmatch Re.message_url url with
  | Some [g; c; m] =>
      match Py.int_of_text g, Py.int_of_text c, Py.int_of_text m with
      | Ok gi, Ok ci, Ok mi => Ok (Some (gi, ci, mi))
      | Raise e, _, _ | _, Raise e, _ | _, _, Raise e => Raise e
      end
  | _ => Ok None
  end.

(** ** The world of the bot *)

Record Message : Type := {
  msg_id : Z;
  msg_channel_id : Z;
  msg_author_id : Z
}.

(** What the bot did that others can see. *)
Inductive event : Type :=
  | Response (text : string) (ephemeral : bool)
  | MessageEdit (msg : Message) (content : string)
  | ChannelRename (channel : Z) (name : string).

(** The Discord API as the program uses it, a channel being known by its
    id, and the part of [format] outside the model. *)
Record Env : Type := {
  get_channel : Z -> option Z;               (* [guild.get_channel] *)
  fetch_channel : Z -> result Z;             (* [client.fetch_channel] *)
  fetch_message : Z -> Z -> result Message;  (* [channel.fetch_message] *)
  edit_message : Message -> string -> result unit;   (* [msg.edit] *)
  edit_channel : Z -> string -> result unit;         (* [channel.edit] *)
  send_message : string -> bool -> result unit;
  original_response : result Message;
  bot_user_id : Z;                           (* [client.user.id] *)
  application_owner : result Z;
  tree_sync : result unit;
  format_ext : Py.format_extension
}.

Record Interaction : Type := {
  guild : option Z;         (* the id of [interaction.guild] *)
  user : Z                  (* [interaction.user.id] *)
}.

Record World : Type := {
  by_guild : gmap Z GuildState.t;    (* [state._by_guild] *)
  state_file : file_image;           (* [STATE_FILE] *)
  sent : list event
}.

Definition with_by_guild (m : gmap Z GuildState.t) (w : World) : World :=
  {| by_guild := m; state_file := state_file w; sent := sent w |}.
Definition with_state_file (f : file_image) (w : World) : World :=
  {| by_guild := by_guild w; state_file := f; sent := sent w |}.
Definition with_event (e : event) (w : World) : World :=
  {| by_guild := by_guild w; state_file := state_file w; sent := sent w ++ [e] |}.

(** ** Handlers: state and exceptions *)

Definition M (A : Type) : Type := World -> result A * World.

Definition ret {A} (a : A) : M A := fun w => (Ok a, w).

Definition raise {A} (e : exn) : M A := fun w => (Raise e, w).

Definition and_then {A B} (m : M A) (k : A -> M B) : M B :=
  fun w =>
    match m w with
    | (Ok a, w') => k a w'
    | (Raise e, w') => (Raise e, w')
    end.

Notation "x <- m ;; k" := (and_then m (fun x => k))
  (at level 100, m at next level, right associativity).
Notation "m ;; k" := (and_then m (fun _ => k))
  (at level 100, right associativity).

(** A call into the environment. *)
Definition call {A} (r : result A) : M A := fun w => (r, w).

(** [try: m  except: ...]: the outcome of [m] as a value. *)
Definition attempt {A} (m : M A) : M (result A) :=
  fun w => let '(r, w') := m w in (Ok r, w').

Definition emit (e : event) : M unit := fun w => (Ok tt, with_event e w).

(** [state.for_guild(gid)]. The object it returns is the one stored in
    the registry, so the handlers below name it by its key [gid]. *)
Definition for_guild (gid : Z) : M unit :=
  fun w =>
    match by_guild w !! gid with
    | Some _ => (Ok tt, w)
    | None => (Ok tt, with_by_guild (<[gid := GuildState.fresh gid]> (by_guild w)) w)
    end.

(** Reading the fields of [gs]. *)
Definition read (gid : Z) : M GuildState.t :=
  fun w =>
    match by_guild w !! gid with
    | Some gs => (Ok gs, w)
    | None => (Raise KeyError, w)
    end.

(** An assignment [gs.field = v]. *)
Definition update (gid : Z) (f : GuildState.t -> GuildState.t) : M unit :=
  fun w => (Ok tt, with_by_guild (alter f gid (by_guild w)) w).

(** [state.save()] *)
Definition save : M unit :=
  fun w => (Ok tt, with_state_file (State.save (by_guild w)) w).

(** [if x:] for [x : int | None]. *)
Definition truthy_id (o : option Z) : bool :=
  match o with
  | Some z => negb (z =? 0)
  | None => false
  end.

(** [guild.get_channel(cid) or await client.fetch_channel(cid)] *)
Definition channel_of (env : Env) (cid : Z) : result Z :=
  match get_channel env cid with
  | Some ch => Ok ch
  | None => fetch_channel env cid
  end.

(** [interaction.response.send_message(text, ephemeral=...)] *)
Definition respond (env : Env) (text : string) (ephemeral : bool) : M unit :=
  call (send_message env text ephemeral) ;; emit (Response text ephemeral).

(** [assert interaction.guild] *)
Definition assert_guild (i : Interaction) : M Z :=
  match guild i with
  | Some g => ret g
  | None => raise AssertionError
  end.

(** ** Rendering and synchronising *)

Definition _render_text (env : Env) (gs : GuildState.t) : result string :=
  Py.format (format_ext env) (GuildState.template gs) (GuildState.days gs).

Definition _update_display (env : Env) (gid : Z) : M unit :=
  gs <- read gid ;;
  if (GuildState.mode gs =? "message")%string then
    if truthy_id (GuildState.channel_id gs) && truthy_id (GuildState.message_id gs)
    then
      channel <- call (channel_of env (default 0 (GuildState.channel_id gs))) ;;
      r <- attempt (call (fetch_message env channel
                            (default 0 (GuildState.message_id gs)))) ;;
      match r with
      | Raise NotFound =>
          (* message deleted; clear binding *)
          update gid (GuildState.set_message_id None) ;;
          save
      | Raise e => raise e
      | Ok msg =>
          text <- call (_render_text env gs) ;;
          call (edit_message env msg text) ;;
          emit (MessageEdit msg text)
      end
    else ret tt
  else if (GuildState.mode gs =? "channel_name")%string then
    if truthy_id (GuildState.channel_name_channel_id gs) then
      channel <- call (channel_of env
                         (default 0 (GuildState.channel_name_channel_id gs))) ;;
      text <- call (_render_text env gs) ;;
      let safe := Text.safe_name text in
      r <- attempt (call (edit_channel env channel safe)) ;;
      match r with
      | Ok _ => emit (ChannelRename channel safe)
      | Raise Forbidden => ret tt
      | Raise e => raise e
      end
    else ret tt
  else ret tt.

(** ** The commands *)

Definition ping (env : Env) : M unit := respond env "pong" true.

Inductive mode_kind : Type := KMessage | KChannelName.

(** [kind.value] *)
Definition kind_value (k : mode_kind) : string :=
  match k with
  | KMessage => "message"
  | KChannelName => "channel_name"
  end.

Module Tank.

Definition post (env : Env) (i : Interaction) : M unit :=
  gid <- assert_guild i ;;
  for_guild gid ;;
  gs <- read gid ;;
  text <- call (_render_text env gs) ;;
  respond env text false ;;
  msg <- call (original_response env) ;;
  update gid (GuildState.set_mode "message") ;;
  update gid (GuildState.set_channel_id (Some (msg_channel_id msg))) ;;
  update gid (GuildState.set_message_id (Some (msg_id msg))) ;;
  save.

Definition set_days (env : Env) (i : Interaction) (days : Z) : M unit :=
  gid <- assert_guild i ;;
  for_guild gid ;;
  update gid (GuildState.set_days days) ;;
  save ;;
  _update_display env gid ;;
  gs <- read gid ;;
  respond env ("Set to **" ++ Py.str_of_int (GuildState.days gs) ++ "**.")%string true.

Definition increment (env : Env) (i : Interaction) : M unit :=
  gid <- assert_guild i ;;
  for_guild gid ;;
  update gid (fun gs => GuildState.set_days (GuildState.days gs + 1) gs) ;;
  save ;;
  _update_display env gid ;;
  gs <- read gid ;;
  respond env ("Now **" ++ Py.str_of_int (GuildState.days gs) ++ "**.")%string true.

Definition reset (env : Env) (i : Interaction) : M unit :=
  gid <- assert_guild i ;;
  for_guild gid ;;
  update gid (GuildState.set_days 0) ;;
  save ;;
  _update_display env gid ;;
  respond env "Reset to **0**." true.

Definition show (env : Env) (i : Interaction) : M unit :=
  gid <- assert_guild i ;;
  for_guild gid ;;
  gs <- read gid ;;
  text <- call (_render_text env gs) ;;
  respond env text false.

Definition bind (env : Env) (i : Interaction) (message_url : string) : M unit :=
  gid <- assert_guild i ;;
  for_guild gid ;;
  parsed <- call (parse_message_link message_url) ;;
  match parsed with
  | None => respond env "Invalid message URL." true
  | Some (guild_id, channel_id, message_id) =>
      if negb (guild_id =? gid) then
        respond env "That message is not in this server." true
      else
        (* Check we can edit (must be our own message) *)
        channel <- call (channel_of env channel_id) ;;
        r <- attempt (call (fetch_message env channel message_id)) ;;
        match r with
        | Raise NotFound => respond env "Could not fetch that message." true
        | Raise e => raise e
        | Ok msg =>
            if negb (msg_author_id msg =? bot_user_id env) then
              respond env
                "I can only bind to **my own** messages. Use /tank post to create one."
                true
            else
              update gid (GuildState.set_mode "message") ;;
              update gid (GuildState.set_channel_id (Some channel_id)) ;;
              update gid (GuildState.set_message_id (Some message_id)) ;;
              save ;;
              _update_display env gid ;;
              respond env "Bound to that message." true
        end
  end.

(** [sub in text] *)
Fixpoint contains (sub text : string) : bool :=
  match Re.strip_prefix sub text with
  | Some _ => true
  | None =>
      match text with
      | EmptyString => false
      | String _ text' => contains sub text'
      end
  end.

Definition template (env : Env) (i : Interaction) (text : string) : M unit :=
  gid <- assert_guild i ;;
  for_guild gid ;;
  if negb (contains "{days}" text) then
    respond env "Template must include `{days}`." true
  else
    update gid (GuildState.set_template text) ;;
    save ;;
    _update_display env gid ;;
    respond env "Template updated." true.

Definition mode (env : Env) (i : Interaction) (kind : mode_kind)
    (channel : option Z) : M unit :=
  gid <- assert_guild i ;;
  for_guild gid ;;
  update gid (GuildState.set_mode (kind_value kind)) ;;
  gs <- read gid ;;
  let continue :=
    save ;;
    _update_display env gid ;;
    gs' <- read gid ;;
    respond env ("Mode set to **" ++ GuildState.mode gs' ++ "**.")%string true in
  if (GuildState.mode gs =? "channel_name")%string then
    match channel with
    | None => respond env "Choose a channel to rename in channel_name mode." true
    | Some ch =>
        update gid (GuildState.set_channel_name_channel_id (Some ch)) ;;
        continue
    end
  else continue.

End Tank.

(** The loop of [on_ready] that refreshes the displays, every exception
    of a refresh being swallowed. *)
Fixpoint refresh_displays (env : Env) (guilds : list Z) : M unit :=
  match guilds with
  | [] => ret tt
  | g :: rest =>
      for_guild g ;;
      _ <- attempt (_update_display env g) ;;
      refresh_displays env rest
  end.

(** [on_ready]: the synchronisation of the commands, whose loop over the
    guilds changes nothing in the world and whose exceptions are printed,
    then the refresh of the displays. *)
Definition on_ready (env : Env) (guilds : list Z) : M unit :=
  _ <- attempt (call (tree_sync env)) ;;
  refresh_displays env guilds.

Definition sync_here (env : Env) (i : Interaction) : M unit :=
  owner <- call (application_owner env) ;;
  if negb (user i =? owner) then
    respond env "Only the bot owner can use this." true
  else
    call (tree_sync env) ;;
    respond env "Commands synced to this server." true.

(** ** The bot as a transition system *)

Inductive command : Type :=
  | Ping
  | SyncHere
  | Post
  | SetDays (days : Z)
  | Increment
  | Reset
  | Show
  | Bind (message_url : string)
  | Template (text : string)
  | Mode (kind : mode_kind) (channel : option Z).

(** What the command tree checks before it calls a handler:
    [app_commands.Range[int, 0, 10000]] for [/tank set]. *)
Definition accepted (c : command) : Prop :=
  match c with
  | SetDays d => 0 <= d <= 10000
  | _ => True
  end.

Definition handle (env : Env) (i : Interaction) (c : command) : M unit :=
  match c with
  | Ping => ping env
  | SyncHere => sync_here env i
  | Post => Tank.post env i
  | SetDays d => Tank.set_days env i d
  | Increment => Tank.increment env i
  | Reset => Tank.reset env i
  | Show => Tank.show env i
  | Bind url => Tank.bind env i url
  | Template text => Tank.template env i text
  | Mode k ch => Tank.mode env i k ch
  end.

(** A first start with no state file. *)
Definition initial : World :=
  {| by_guild := ∅; state_file := Absent; sent := [] |}.

Inductive step : World -> World -> Prop :=
  | step_command env i c w :
      accepted c -> step w (snd (handle env i c w))
  | step_ready env guilds w :
      step w (snd (on_ready env guilds w))
  | step_restart w m :
      State.new (state_file w) = Some (Ok m) ->
      step w (with_by_guild m w).

Inductive reachable : World -> Prop :=
  | reachable_initial : reachable initial
  | reachable_step w w' : reachable w -> step w w' -> reachable w'.

(** ** Auxiliary predicates of the proofs *)

Definition no_space (c : ascii) : bool := negb (Py.is_space c).

Definition no_brace (c : ascii) : bool := negb (Py.is_brace c).

(** The outcome of one replacement field or of none. *)
Definition render_item (ext : Py.format_extension) (days : Z)
    (fld : option Py.field) : result string :=
  match fld with
  | None => Ok EmptyString
  | Some f => Py.render_field ext days f
  end.





(** ** Templates, in the words of the specification *)

(** A template whose only brace constructs are value placeholders. *)
Inductive segment : Type :=
  | Lit (s : string)
  | Days.

Definition brace_free (x : segment) : Prop :=
  match x with
  | Lit s => Text.sall no_brace s = true
  | Days => True
  end.

Fixpoint template_of (segs : list segment) : string :=
  match segs with
  | [] => EmptyString
  | Lit s :: rest => (s ++ template_of rest)%string
  | Days :: rest => ("{days}" ++ template_of rest)%string
  end.

(** The template with the decimal string of the value at each placeholder. *)
Fixpoint filled (days : Z) (segs : list segment) : string :=
  match segs with
  | [] => EmptyString
  | Lit s :: rest => (s ++ filled days rest)%string
  | Days :: rest => (Py.str_of_int days ++ filled days rest)%string
  end.

(** The number of places at which [sub] occurs in [text]. *)
Fixpoint occurrences (sub text : string) : nat :=
  match text with
  | EmptyString => O
  | String _ text' =>
      ((match Re.strip_prefix sub text with Some _ => 1 | None => 0 end)
       + occurrences sub text')%nat
  end.

(** "A valid record (one whose template contains the placeholder exactly
    once)". *)
Definition valid_record (gs : GuildState.t) : Prop :=
  occurrences "{days}" (GuildState.template gs) = 1%nat.

(** [text] with [rep] in place of the first occurrence of [sub]. *)
Fixpoint substitute_once (sub rep text : string) : string :=
  match Re.strip_prefix sub text with
  | Some r => (rep ++ r)%string
  | None =>
      match text with
      | EmptyString => EmptyString
      | String c text' => String c (substitute_once sub rep text')
      end
  end.

(** "The template text with the exact decimal string of [record.value]
    substituted exactly once in place of the placeholder". *)
Definition substituted (gs : GuildState.t) : string :=
  substitute_once "{days}" (Py.str_of_int (GuildState.days gs))
                  (GuildState.template gs).

(** ** Sample environments and records of the examples *)

(** Every call to Discord succeeds, every channel is in the cache, each
    fetched message is the bot's own. *)
Definition calm : Env := {|
  get_channel := fun c => Some c;
  fetch_channel := fun c => Ok c;
  fetch_message := fun c m =>
    Ok {| msg_id := m; msg_channel_id := c; msg_author_id := 1 |};
  edit_message := fun _ _ => Ok tt;
  edit_channel := fun _ _ => Ok tt;
  send_message := fun _ _ => Ok tt;
  original_response :=
    Ok {| msg_id := 700; msg_channel_id := 70; msg_author_id := 1 |};
  bot_user_id := 1;
  application_owner := Ok 9;
  tree_sync := Ok tt;
  format_ext := fun _ _ _ _ => Raise TypeError
|}.

(** [calm], but the bound message has been deleted. *)
Definition message_gone : Env := {|
  get_channel := get_channel calm;
  fetch_channel := fetch_channel calm;
  fetch_message := fun _ _ => Raise NotFound;
  edit_message := edit_message calm;
  edit_channel := edit_channel calm;
  send_message := send_message calm;
  original_response := original_response calm;
  bot_user_id := bot_user_id calm;
  application_owner := application_owner calm;
  tree_sync := tree_sync calm;
  format_ext := format_ext calm
|}.

Definition with_template (tpl : string) (gs : GuildState.t) : GuildState.t :=
  GuildState.set_template tpl gs.

(** ** The registry, in the words of the specification *)

(** A mapping from guild ids to records: each record is stored under its
    own [guild_id], as [for_guild] and [load] store them. *)
Definition keyed_by_guild_id (m : gmap Z GuildState.t) : Prop :=
  forall g gs, m !! g = Some gs -> GuildState.guild_id gs = g.

(** The insertions that the loop of [load] makes for the items [l]. *)
Definition insert_all (acc : gmap Z GuildState.t) (l : list (Z * GuildState.t))
  : gmap Z GuildState.t :=
  foldl (fun a kv => <[kv.1 := kv.2]> a) acc l.

(** The item that [save] writes for a record. *)
Definition saved_item (kv : Z * GuildState.t) : string * json :=
  (Py.str_of_int kv.1, GuildState.to_dict kv.2).

(** The record that [state.for_guild(g)] returns in the world [w]. *)
Definition record_of (g : Z) (w : World) : GuildState.t :=
  default (GuildState.fresh g) (by_guild w !! g).

(** Guild 1 with the counter at 3, bound to message 700 of channel 70. *)
Definition bound_record : GuildState.t :=
  GuildState.Make 1 3 (Some 700) (Some 70) "message" DEFAULT_TEMPLATE None.

Definition bound_world : World :=
  {| by_guild := {[ 1 := bound_record ]}; state_file := Absent; sent := [] |}.

Definition in_guild_1 : Interaction := {| guild := Some 1; user := 9 |}.

(** The world after the recovery of [_update_display]: the message id of
    the record is cleared and the registry is saved. *)
Definition unbound (g : Z) (gs : GuildState.t) (w : World) : World :=
  let m := <[g := GuildState.set_message_id None gs]> (by_guild w) in
  {| by_guild := m; state_file := State.save m; sent := sent w |}.

(** ** The invariant of the counter *)

Definition nonneg_registry (m : gmap Z GuildState.t) : Prop :=
  forall g gs, m !! g = Some gs -> 0 <= GuildState.days gs.

(** Whatever a start of the bot loads from the file is non-negative. *)
Definition nonneg_file (f : file_image) : Prop :=
  forall m, State.new f = Some (Ok m) -> nonneg_registry m.

Definition good (w : World) : Prop :=
  nonneg_registry (by_guild w) /\ nonneg_file (state_file w).

(** The handler [m] keeps [P], whatever its outcome. *)
Definition preserves {A} (P : World -> Prop) (m : M A) : Prop :=
  forall w, P w -> P (snd (m w)).

(** The field assignment [f] keeps a non-negative value non-negative. *)
Definition keeps_nonneg (f : GuildState.t -> GuildState.t) : Prop :=
  forall gs, 0 <= GuildState.days gs -> 0 <= GuildState.days (f gs).

(** ** Message links, in the words of the specification *)

(** A non-empty text of digits: a "purely numeric" segment. *)
Definition numeric (s : string) : bool :=
  negb (s =? "")%string && Text.sall Text.is_digit s.




Definition starts_with_digit (s : string) : bool :=
  match s with
  | String c _ => Text.is_digit c
  | EmptyString => false
  end.

Definition link_text (sub app gs cs ms rest : string) : string :=
  ("https://" ++ sub ++ "discord" ++ app ++ ".com/channels/"
     ++ gs ++ "/" ++ cs ++ "/" ++ ms ++ rest)%string.

(** [url] begins with a message link whose segments are the texts [gs],
    [cs] and [ms]; the message segment is the whole run of digits found
    there, and [rest] is whatever follows it. *)
Inductive link_prefix (url gs cs ms : string) : Prop :=
  | LinkPrefix (sub app rest : string) :
      url = link_text sub app gs cs ms rest ->
      sub = EmptyString \/ sub = "canary."%string \/ sub = "ptb."%string ->
      app = EmptyString \/ app = "app"%string ->
      numeric gs = true -> numeric cs = true -> numeric ms = true ->
      starts_with_digit rest = false ->
      link_prefix url gs cs ms.



(** ** Worlds after the registry operations *)

(** The world after [state.for_guild(g)]. *)
Definition ensure (g : Z) (w : World) : World := snd (for_guild g w).

(** The world after an assignment to a field of the record of [g]. *)
Definition assign (g : Z) (f : GuildState.t -> GuildState.t) (w : World) : World :=
  snd (update g f w).

(** The world after [state.save()]. *)
Definition saved (w : World) : World := snd (save w).

(** A handler that leaves the registry and the file alone. *)
Definition quiet {A} (m : M A) : Prop :=
  forall w, by_guild (snd (m w)) = by_guild w /\ state_file (snd (m w)) = state_file w.

(** The record as [load] rebuilds it under the key [g]. *)
Definition rekeyed (g : Z) (gs : GuildState.t) : GuildState.t :=
  GuildState.Make g (GuildState.days gs) (GuildState.message_id gs)
    (GuildState.channel_id gs) (GuildState.mode gs) (GuildState.template gs)
    (GuildState.channel_name_channel_id gs).

(** The items of the file that [save] writes. *)
Definition saved_items (m : gmap Z GuildState.t) : list (string * json) :=
  map saved_item (map_to_list m).

(** [n] times [/tank inc] in the guild of [i]. *)
Fixpoint increments (env : Env) (i : Interaction) (n : nat) (w : World) : World :=
  match n with
  | O => w
  | S n' => snd (Tank.increment env i (increments env i n' w))
  end.

(** The record bound to the message [m] of the channel [c]. *)
Definition bound_to (c m : Z) (gs : GuildState.t) : GuildState.t :=
  GuildState.set_message_id (Some m)
    (GuildState.set_channel_id (Some c) (GuildState.set_mode "message" gs)).

(** [calm], but the messages are those of the user 2. *)
Definition foreign_messages : Env := {|
  get_channel := get_channel calm;
  fetch_channel := fetch_channel calm;
  fetch_message := fun c m =>
    Ok {| msg_id := m; msg_channel_id := c; msg_author_id := 2 |};
  edit_message := edit_message calm;
  edit_channel := edit_channel calm;
  send_message := send_message calm;
  original_response := original_response calm;
  bot_user_id := bot_user_id calm;
  application_owner := application_owner calm;
  tree_sync := tree_sync calm;
  format_ext := format_ext calm
|}.

(** The registry [m'] has every record of [m], with the same value,
    template, mode and channels. *)
Definition keeps_records (m m' : gmap Z GuildState.t) : Prop :=
  forall g gs, m !! g = Some gs ->
    exists gs', m' !! g = Some gs' /\
      GuildState.days gs' = GuildState.days gs /\
      GuildState.template gs' = GuildState.template gs /\
      GuildState.mode gs' = GuildState.mode gs /\
      GuildState.channel_id gs' = GuildState.channel_id gs /\
      GuildState.channel_name_channel_id gs' = GuildState.channel_name_channel_id gs.

(** * Properties *)

(** ** Properties of the channel name *)

Section SafeName.
Import Text.

Lemma slice_to_length n s : (String.length (slice_to n s) <= n)%nat.
Proof.
  revert s; induction n as [|n IH]; intros [|c s]; simpl; try lia.
  specialize (IH s); lia.
Qed.

Lemma slice_to_sall p n s : sall p s = true -> sall p (slice_to n s) = true.
Proof.
  revert s; induction n as [|n IH]; intros [|c s]; simpl; auto.
  intros [Hc Hs]%andb_prop. rewrite Hc; simpl; auto.
Qed.

Lemma smap_sall p f s : (forall c, p (f c) = true) -> sall p (smap f s) = true.
Proof.
  intros Hf; induction s as [|c s IH]; simpl; auto.
  now rewrite Hf, IH.
Qed.

Lemma sub_unsafe_sall s : sall is_name_char (sub_unsafe s) = true.
Proof.
  apply smap_sall; intros c.
  destruct (is_name_char c) eqn:E; auto.
Qed.

(** C5: for every input text the channel name has at most 95 characters
    and every one of them is in [a-z0-9-]. *)
Theorem safe_name_charset_and_length (text : string) :
  (String.length (safe_name text) <= 95)%nat /\
  sall is_name_char (safe_name text) = true.
Proof.
  unfold safe_name; split.
  - apply slice_to_length.
  - apply slice_to_sall, sub_unsafe_sall.
Qed.

End SafeName.

(** ** [int] and [str] *)

Section IntStr.
Import Text Py.

Lemma lstrip_no_space s : sall no_space s = true -> lstrip s = s.
Proof.
  destruct s as [|c s]; simpl; auto.
  unfold no_space at 1. intros [Hc _]%andb_prop.
  apply negb_true_iff in Hc. now rewrite Hc.
Qed.

Lemma rstrip_no_space s : sall no_space s = true -> rstrip s = s.
Proof.
  induction s as [|c s IH]; simpl; auto.
  unfold no_space at 1. intros [Hc Hs]%andb_prop.
  apply negb_true_iff in Hc. rewrite (IH Hs), Hc. now destruct s.
Qed.

Lemma strip_no_space s : sall no_space s = true -> strip s = s.
Proof.
  intros H. unfold strip. rewrite (lstrip_no_space _ H). now apply rstrip_no_space.
Qed.

Lemma string_of_uint_no_space d :
  sall no_space (NilEmpty.string_of_uint d) = true.
Proof. induction d; simpl; auto. Qed.

Lemma digits_string_of_uint d :
  digits true (NilEmpty.string_of_uint d) = Some d.
Proof. induction d; simpl; rewrite ?IHd; reflexivity. Qed.

Lemma digits_first d :
  d <> Decimal.Nil -> digits false (NilEmpty.string_of_uint d) = Some d.
Proof.
  destruct d; try congruence; intros _; simpl;
    rewrite digits_string_of_uint; reflexivity.
Qed.

Lemma int_of_str_of_decimal (d : Decimal.int) :
  match d with Decimal.Pos u | Decimal.Neg u => u <> Decimal.Nil end ->
  int_of_str (NilZero.string_of_int d) = Ok (Z.of_int d).
Proof.
  destruct d as [u|u]; intros Hu; unfold int_of_str.
  - assert (E : NilZero.string_of_int (Decimal.Pos u) = NilEmpty.string_of_uint u)
      by (destruct u; congruence || reflexivity).
    rewrite E, strip_no_space by apply string_of_uint_no_space.
    assert (H := digits_first u Hu).
    destruct u; try congruence; simpl NilEmpty.string_of_uint in *;
      cbv iota beta; simpl Ascii.eqb; cbv iota; rewrite H; reflexivity.
  - assert (E : NilZero.string_of_int (Decimal.Neg u)
                = String "-" (NilEmpty.string_of_uint u))
      by (destruct u; congruence || reflexivity).
    rewrite E, strip_no_space
      by (simpl; apply string_of_uint_no_space).
    simpl Ascii.eqb. cbv iota. rewrite (digits_first u Hu). reflexivity.
Qed.

Lemma int_of_str_of_int (z : Z) : int_of_str (str_of_int z) = Ok z.
Proof.
  unfold str_of_int. rewrite int_of_str_of_decimal.
  - now rewrite DecimalZ.of_to.
  - destruct z; simpl; try discriminate; apply DecimalPos.Unsigned.to_uint_nonnil.
Qed.

End IntStr.

(** ** [str.format]: the fuel is enough *)

Section FormatFuel.
Import Text Py.
Local Open Scope string_scope.
Local Open Scope nat_scope.

Lemma scan_literal_length s lit c r :
  scan_literal s = (lit, Some (c, r)) -> String.length r < String.length s.
Proof.
  revert lit; induction s as [|a s IH]; simpl; intros lit; [discriminate|].
  destruct (is_brace a).
  - intros H; inversion H; subst. lia.
  - destruct (scan_literal s) as [l o]. intros H; inversion H; subst.
    specialize (IH _ eq_refl). lia.
Qed.

Lemma scan_name_length b s n e r :
  scan_name b s = Ok (n, e, r) -> String.length r < String.length s.
Proof.
  revert b n; induction s as [|a s IH]; simpl; intros b n; [discriminate|].
  assert (K : forall b',
    match scan_name b' s with
    | Ok (n0, e0, r0) => Ok (String a n0, e0, r0)
    | Raise x => Raise x
    end = Ok (n, e, r) -> String.length r < S (String.length s)).
  { intros b'. destruct (scan_name b' s) as [[[n0 e0] r0]|] eqn:E; [|discriminate].
    intros H; inversion H; subst. specialize (IH _ _ E). lia. }
  destruct b; [apply K|].
  repeat (match goal with |- context [if ?c then _ else _] => destruct c end);
    try discriminate; try apply K; intros H; inversion H; subst; lia.
Qed.

Lemma scan_spec_length d s sp r :
  scan_spec d s = Ok (sp, r) -> String.length r < String.length s.
Proof.
  revert d sp; induction s as [|a s IH]; simpl; intros d sp; [discriminate|].
  assert (K : forall d',
    match scan_spec d' s with
    | Ok (sp0, r0) => Ok (String a sp0, r0)
    | Raise x => Raise x
    end = Ok (sp, r) -> String.length r < S (String.length s)).
  { intros d'. destruct (scan_spec d' s) as [[sp0 r0]|] eqn:E; [|discriminate].
    intros H; inversion H; subst. specialize (IH _ _ E). lia. }
  destruct (a =? "{")%char; [apply K|].
  destruct (a =? "}")%char; [|apply K].
  destruct d; [|apply K]. intros H; inversion H; subst. lia.
Qed.

Lemma with_spec_length n c s f r :
  with_spec n c s = Ok (f, r) -> String.length r < String.length s.
Proof.
  unfold with_spec. destruct (scan_spec 0 s) as [[sp r0]|] eqn:E; [|discriminate].
  intros H; inversion H; subst. eapply scan_spec_length, E.
Qed.

Lemma parse_field_length s f r :
  parse_field s = Ok (f, r) -> String.length r < String.length s.
Proof.
  unfold parse_field.
  destruct (scan_name false s) as [[[n e] r0]|] eqn:E; [|discriminate].
  apply scan_name_length in E.
  destruct e.
  - intros H; inversion H; subst. exact E.
  - destruct r0 as [|conv [|c r2]]; [discriminate| |].
    + intros H%with_spec_length. simpl in *. lia.
    + destruct (c =? "}")%char.
      * intros H; inversion H; subst. simpl in *. lia.
      * destruct (c =? ":")%char; [|discriminate].
        intros H%with_spec_length. simpl in *. lia.
  - intros H%with_spec_length. lia.
Qed.

Lemma markup_next_length s lit fld rest :
  markup_next s = TItem lit fld rest -> String.length rest < String.length s.
Proof.
  unfold markup_next. destruct s as [|a s]; [discriminate|].
  destruct (scan_literal (String a s)) as [l [[c r]|]] eqn:E.
  - apply scan_literal_length in E.
    destruct r as [|c' r']; [discriminate|].
    destruct (c =? c')%char.
    + intros H; inversion H; subst. simpl in *. lia.
    + destruct (c =? "}")%char; [discriminate|].
      destruct (parse_field (String c' r')) as [[f r0]|] eqn:P; [|discriminate].
      intros H; inversion H; subst. apply parse_field_length in P. lia.
  - intros H; inversion H; subst. simpl. lia.
Qed.

Lemma do_markup_enough ext days n m s :
  String.length s < n -> String.length s < m ->
  do_markup ext days n s = do_markup ext days m s /\
  exists r, do_markup ext days n s = Some r.
Proof.
  revert m s; induction n as [|n IH]; intros m s Hn Hm; [lia|].
  destruct m as [|m]; [lia|]. simpl.
  destruct (markup_next s) as [|e|lit fld rest] eqn:E; eauto.
  destruct (match fld with None => Ok "" | Some f => render_field ext days f end);
    eauto.
  apply markup_next_length in E.
  destruct (IH m rest) as [Hq [r Hr]]; try lia.
  rewrite <- Hq, Hr. destruct r; eauto.
Qed.

(** [format] follows the iterator, with no fuel in sight. *)
Lemma format_unfold ext s days :
  format ext s days =
  match markup_next s with
  | TEnd => Ok ""
  | TError e => Raise e
  | TItem lit fld rest =>
      match render_item ext days fld with
      | Raise e => Raise e
      | Ok txt =>
          match format ext rest days with
          | Ok out => Ok (lit ++ txt ++ out)
          | Raise e => Raise e
          end
      end
  end.
Proof.
  unfold format at 1. simpl.
  destruct (markup_next s) as [|e|lit fld rest] eqn:E; auto.
  unfold render_item.
  destruct (match fld with None => Ok "" | Some f => render_field ext days f end);
    auto.
  apply markup_next_length in E.
  destruct (do_markup_enough ext days (String.length s) (S (String.length rest)) rest)
    as [Hq [r Hr]]; try lia.
  unfold format. rewrite <- Hq, Hr. now destruct r.
Qed.

End FormatFuel.

(** ** [str.format] on literal text and on the value placeholder *)

Section FormatText.
Import Text Py.
Local Open Scope string_scope.
Local Arguments String.append : simpl nomatch.

Lemma append_nil_r (s : string) : s ++ "" = s.
Proof. induction s; simpl; congruence. Qed.

Lemma append_assoc (a b c : string) : (a ++ b) ++ c = a ++ (b ++ c).
Proof. induction a; simpl; congruence. Qed.

Lemma scan_literal_app l t :
  sall no_brace l = true ->
  scan_literal (l ++ t) = let '(lit, r) := scan_literal t in (l ++ lit, r).
Proof.
  induction l as [|a l IH]; simpl.
  - intros _. now destruct (scan_literal t).
  - unfold no_brace at 1. intros [Ha Hl]%andb_prop.
    apply negb_true_iff in Ha. rewrite Ha, (IH Hl).
    now destruct (scan_literal t).
Qed.

Lemma markup_next_app l t :
  sall no_brace l = true -> t <> "" ->
  markup_next (l ++ t) =
  match markup_next t with
  | TItem lit f r => TItem (l ++ lit) f r
  | other => other
  end.
Proof.
  intros Hl Ht. unfold markup_next.
  destruct (l ++ t) as [|a0 s0] eqn:E.
  { destruct l; simpl in E; [congruence|discriminate]. }
  rewrite <- E, (scan_literal_app _ _ Hl).
  destruct t as [|b t]; [congruence|].
  destruct (scan_literal (String b t)) as [lit [[c r]|]]; auto.
  destruct r as [|c' r']; auto.
  destruct (c =? c')%char; [now rewrite append_assoc|].
  destruct (c =? "}")%char; auto.
  now destruct (parse_field (String c' r')) as [[f r0]|].
Qed.

Lemma markup_next_end s : markup_next s = TEnd -> s = "".
Proof.
  unfold markup_next. destruct s as [|a s]; auto.
  destruct (scan_literal (String a s)) as [lit [[c r]|]]; [|discriminate].
  destruct r as [|c' r']; [discriminate|].
  destruct (c =? c')%char; [discriminate|].
  destruct (c =? "}")%char; [discriminate|].
  now destruct (parse_field (String c' r')) as [[f r0]|].
Qed.

Lemma format_empty ext days : format ext "" days = Ok "".
Proof. reflexivity. Qed.

Lemma scan_literal_brace_free l :
  sall no_brace l = true -> scan_literal l = (l, None).
Proof.
  intros H. rewrite <- (append_nil_r l) at 1.
  rewrite (scan_literal_app _ _ H). simpl. now rewrite append_nil_r.
Qed.

(** Literal text with no brace is copied. *)
Lemma format_lit_app ext days l t :
  sall no_brace l = true ->
  format ext (l ++ t) days =
  match format ext t days with
  | Ok out => Ok (l ++ out)
  | Raise e => Raise e
  end.
Proof.
  intros Hl. destruct t as [|b t].
  - rewrite append_nil_r, format_empty, append_nil_r.
    destruct l as [|a l]; [reflexivity|].
    rewrite format_unfold. unfold markup_next.
    rewrite (scan_literal_brace_free _ Hl). simpl.
    now rewrite append_nil_r.
  - rewrite (format_unfold ext (l ++ _)), markup_next_app by (auto; discriminate).
    rewrite (format_unfold ext (String b t)).
    destruct (markup_next (String b t)) as [|e|lit f r] eqn:E; auto.
    + now apply markup_next_end in E.
    + destruct (render_item ext days f); auto.
      destruct (format ext r days); auto.
      now rewrite append_assoc.
Qed.

(** The value placeholder is replaced by [str(days)]. *)
Lemma format_days_app ext days t :
  format ext ("{days}" ++ t) days =
  match format ext t days with
  | Ok out => Ok (str_of_int days ++ out)
  | Raise e => Raise e
  end.
Proof. rewrite format_unfold. reflexivity. Qed.

Lemma format_template ext days segs :
  Forall brace_free segs ->
  format ext (template_of segs) days = Ok (filled days segs).
Proof.
  induction 1 as [|x segs Hx _ IH]; [reflexivity|].
  destruct x as [s|]; cbn [template_of filled brace_free] in *.
  - now rewrite format_lit_app, IH.
  - now rewrite format_days_app, IH.
Qed.

End FormatText.

(** ** What a template needs for [_render_text] to return *)

Section Render.
Import Text Py.
Local Open Scope string_scope.
Local Arguments String.append : simpl nomatch.

Lemma no_brace_false a : no_brace a = true -> (a =? "{")%char = false /\ (a =? "}")%char = false.
Proof.
  unfold no_brace, is_brace. rewrite negb_true_iff, orb_false_iff. tauto.
Qed.



Lemma strip_prefix_days_no_brace a s :
  no_brace a = true -> Re.strip_prefix "{days}" (String a s) = None.
Proof.
  intros Ha. destruct (no_brace_false a Ha) as [Hb _].
  change (Re.strip_prefix "{days}" (String a s))
    with (if ("{" =? a)%char then Re.strip_prefix "days}" s else None).
  now rewrite Ascii.eqb_sym, Hb.
Qed.

Lemma occurrences_no_brace l :
  sall no_brace l = true -> occurrences "{days}" l = O.
Proof.
  induction l as [|a l IH]; [reflexivity|].
  intros [Ha Hl]%andb_prop.
  cbn [occurrences]. now rewrite strip_prefix_days_no_brace, IH.
Qed.

Lemma occurrences_single pre post :
  sall no_brace pre = true -> sall no_brace post = true ->
  occurrences "{days}" (pre ++ "{days}" ++ post) = 1%nat.
Proof.
  intros Hpre Hpost. induction pre as [|a pre IH].
  - simpl. now rewrite occurrences_no_brace.
  - apply andb_prop in Hpre as [Ha Hpre].
    change (String a pre ++ "{days}" ++ post)
      with (String a (pre ++ "{days}" ++ post)).
    cbn [occurrences]. now rewrite strip_prefix_days_no_brace, IH.
Qed.

Lemma substitute_once_single rep pre post :
  sall no_brace pre = true ->
  substitute_once "{days}" rep (pre ++ "{days}" ++ post) = pre ++ rep ++ post.
Proof.
  intros Hpre. induction pre as [|a pre IH].
  - destruct post; reflexivity.
  - apply andb_prop in Hpre as [Ha Hpre].
    change (String a pre ++ "{days}" ++ post)
      with (String a (pre ++ "{days}" ++ post)).
    change (String a pre ++ rep ++ post) with (String a (pre ++ rep ++ post)).
    rewrite <- (IH Hpre).
    generalize (pre ++ "{days}" ++ post); intros s.
    cbn [substitute_once]. now rewrite strip_prefix_days_no_brace.
Qed.




















End Render.

(** ** The renderer *)

Section RenderClaims.
Import Text Py.
Local Open Scope string_scope.
Local Arguments String.append : simpl nomatch.

(** C4, as stated, fails: the record with value 5 and template
    ["{days} {foo}"] contains the placeholder exactly once, the claimed
    text is ["5 {foo}"], and [_render_text] raises [KeyError]. *)
Lemma render_one_placeholder_counterexample :
  let gs := with_template "{days} {foo}" (GuildState.set_days 5 (GuildState.fresh 1)) in
  valid_record gs /\
  substituted gs = "5 {foo}" /\
  _render_text calm gs = Raise KeyError /\
  _render_text calm gs <> Ok (substituted gs).
Proof. repeat split; try reflexivity. discriminate. Qed.

(** C4, amended: for every record whose template is the placeholder
    between two texts that hold no brace, [_render_text] returns the
    template with the decimal string of the value in place of the
    placeholder; such a template contains the placeholder exactly once and
    the text is the one the substitution gives. *)
Theorem render_single_placeholder (env : Env) (gs : GuildState.t) (pre post : string) :
  GuildState.template gs = pre ++ "{days}" ++ post ->
  sall no_brace pre = true ->
  sall no_brace post = true ->
  _render_text env gs = Ok (pre ++ str_of_int (GuildState.days gs) ++ post) /\
  valid_record gs /\
  substituted gs = pre ++ str_of_int (GuildState.days gs) ++ post.
Proof.
  intros Ht Hpre Hpost. unfold _render_text, valid_record, substituted.
  rewrite Ht. repeat split.
  - rewrite format_lit_app, format_days_app by assumption.
    rewrite <- (append_nil_r post) at 1.
    now rewrite format_lit_app, format_empty, append_nil_r.
  - now apply occurrences_single.
  - now apply substitute_once_single.
Qed.

Lemma render_single_placeholder_witness :
  _render_text calm (GuildState.set_days 12 (GuildState.fresh 1))
  = Ok "12 days since Sean and Patrick talked about tanks".
Proof.
  exact (proj1 (render_single_placeholder calm
                  (GuildState.set_days 12 (GuildState.fresh 1))
                  "" " days since Sean and Patrick talked about tanks"
                  eq_refl eq_refl eq_refl)).
Defined.



(** The check of [/tank template] accepts templates that [_render_text]
    rejects or renders without the value. *)
Example accepted_templates_that_do_not_render :
  Tank.contains "{days}" "{days} {foo}" = true /\
  _render_text calm (with_template "{days} {foo}" (GuildState.fresh 1)) = Raise KeyError /\
  Tank.contains "{days}" "{{days}}" = true /\
  _render_text calm (with_template "{{days}}" (GuildState.fresh 1)) = Ok "{days}".
Proof. repeat split. Qed.

End RenderClaims.

(** ** Saving and loading *)

Section RoundTrip.

Lemma init_to_dict (gs : GuildState.t) :
  GuildState.init (GuildState.guild_id gs) (GuildState.to_dict gs) = Some (Ok gs).
Proof.
  destruct gs as [g d [mid|] [cid|] md tpl [ccid|]]; reflexivity.
Qed.

Lemma save_items (m : gmap Z GuildState.t) :
  State.save m = Image (JObj (map saved_item (map_to_list m))).
Proof.
  unfold State.save. do 2 f_equal. apply map_ext. now intros [g gs].
Qed.

Lemma load_items_saved (l : list (Z * GuildState.t)) (acc : gmap Z GuildState.t) :
  Forall (fun kv => GuildState.guild_id kv.2 = kv.1) l ->
  State.load_items acc (map saved_item l) = Some (Ok (insert_all acc l)).
Proof.
  intros H. revert acc. induction H as [|[g gs] l Hg _ IH]; intros acc.
  - reflexivity.
  - simpl in Hg. subst g. cbn [map saved_item State.load_items fst snd].
    rewrite int_of_str_of_int, init_to_dict. apply IH.
Qed.

Lemma insert_all_union (l : list (Z * GuildState.t)) (acc : gmap Z GuildState.t) :
  NoDup l.*1 -> insert_all acc l = list_to_map l ∪ acc.
Proof.
  revert acc. induction l as [|[k v] l IH]; intros acc Hnd.
  - cbn. now rewrite (left_id_L ∅ (∪)).
  - rewrite fmap_cons in Hnd. apply NoDup_cons in Hnd as [Hk Hnd].
    cbn [insert_all foldl fst snd]. fold (insert_all (<[k:=v]> acc) l).
    rewrite (IH _ Hnd). cbn [list_to_map foldr fst snd uncurry].
    rewrite <- insert_union_l. symmetry. apply insert_union_r.
    now apply not_elem_of_list_to_map_1.
Qed.

Lemma insert_all_map_to_list (m : gmap Z GuildState.t) :
  insert_all ∅ (map_to_list m) = m.
Proof.
  rewrite insert_all_union by apply NoDup_fst_map_to_list.
  now rewrite (right_id_L ∅ (∪)), list_to_map_to_list.
Qed.

(** C3: for every mapping from guild ids to their records, loading the
    file that [save] wrote yields the mapping. *)
Theorem load_save_round_trip (m : gmap Z GuildState.t) :
  keyed_by_guild_id m ->
  State.new (State.save m) = Some (Ok m).
Proof.
  intros Hm. unfold State.new. rewrite save_items. cbn [State.load].
  rewrite load_items_saved.
  - now rewrite insert_all_map_to_list.
  - apply Forall_forall. intros [g gs] Hin. cbn.
    apply Hm. now apply elem_of_map_to_list.
Qed.

Lemma load_save_round_trip_witness :
  let m : gmap Z GuildState.t :=
    {[ 42 := GuildState.Make 42 7 (Some 700) (Some 70) "message"
               "{days} days" None ]} in
  State.new (State.save m) = Some (Ok m).
Proof.
  intros m. apply (load_save_round_trip m).
  intros g gs Hg. unfold m in Hg.
  apply lookup_singleton_Some in Hg as [<- <-]. reflexivity.
Defined.

End RoundTrip.

(** ** What the synchroniser and the handlers change *)

Section Effects.
Local Open Scope string_scope.

Ltac unfold_m :=
  unfold and_then, ret, raise, call, attempt, emit, respond, update, save, read,
    for_guild, assert_guild, with_event, with_by_guild, with_state_file in *.

Ltac break_match :=
  match goal with
  | |- context [match ?x with _ => _ end] => destruct x eqn:?
  | |- context [if ?x then _ else _] => destruct x eqn:?
  end.

(** [_update_display] leaves the registry and the file alone, or it is in
    message mode and clears the message id of the record and saves. *)
Lemma update_display_effect env g w :
  let w' := snd (_update_display env g w) in
  (by_guild w' = by_guild w /\ state_file w' = state_file w) \/
  (exists gs, by_guild w !! g = Some gs /\
     GuildState.mode gs = "message" /\
     w' = unbound g gs w /\
     fst (_update_display env g w) = Ok tt).
Proof.
  unfold _update_display, unbound. unfold_m. cbn.
  destruct (by_guild w !! g) as [gs|] eqn:Hg; cbn; [|auto].
  destruct (GuildState.mode gs =? "message") eqn:Hm.
  - apply String.eqb_eq in Hm.
    repeat (break_match; cbn; auto).
    all: right; exists gs; repeat split; auto.
    all: assert (E : alter (GuildState.set_message_id None) g (by_guild w)
                     = <[g := GuildState.set_message_id None gs]> (by_guild w))
      by (apply map_eq; intros k; rewrite lookup_alter, lookup_insert;
          repeat case_decide; subst; try congruence; now rewrite ?Hg).
    all: now rewrite E.
  - repeat (break_match; cbn; auto).
Qed.

Lemma update_display_not_found env g w gs ch :
  by_guild w !! g = Some gs ->
  GuildState.mode gs = "message" ->
  truthy_id (GuildState.channel_id gs) = true ->
  truthy_id (GuildState.message_id gs) = true ->
  channel_of env (default 0 (GuildState.channel_id gs)) = Ok ch ->
  fetch_message env ch (default 0 (GuildState.message_id gs)) = Raise NotFound ->
  _update_display env g w = (Ok tt, unbound g gs w).
Proof.
  intros Hg Hm Hc Hi Hch Hf.
  unfold _update_display, unbound. unfold_m. cbn.
  rewrite Hg. cbn. rewrite Hm. cbn. rewrite Hc, Hi. cbn. rewrite Hch, Hf. cbn.
  assert (E : alter (GuildState.set_message_id None) g (by_guild w)
              = <[g := GuildState.set_message_id None gs]> (by_guild w))
    by (apply map_eq; intros k; rewrite lookup_alter, lookup_insert;
        repeat case_decide; subst; try congruence; now rewrite ?Hg).
  now rewrite E.
Qed.

(** With no message id there is nothing to synchronise in message mode. *)
Lemma update_display_unbound env g w gs :
  GuildState.mode gs = "message" ->
  _update_display env g (unbound g gs w) = (Ok tt, unbound g gs w).
Proof.
  intros Hm. unfold _update_display, unbound. unfold_m. cbn.
  rewrite lookup_insert_eq. cbn. rewrite Hm. cbn.
  now rewrite andb_false_r.
Qed.

(** C1, as stated, fails: with guild 1 bound to message 700 of channel 70
    and the message gone, [_update_display] returns normally with the
    message id cleared, and the channel id is still 70. *)
Lemma sync_not_found_counterexample :
  let out := _update_display message_gone 1 bound_world in
  fst out = Ok tt /\
  GuildState.message_id (record_of 1 (snd out)) = None /\
  GuildState.channel_id (record_of 1 (snd out)) = Some 70 /\
  GuildState.channel_id (record_of 1 (snd out)) <> None.
Proof.
  rewrite (update_display_not_found message_gone 1 bound_world bound_record 70);
    try reflexivity.
  unfold record_of, unbound. cbn. rewrite lookup_insert_eq. cbn.
  repeat split. discriminate.
Qed.

(** C1, amended: in message mode with both ids set, when the fetch of the
    bound message reports not-found, [_update_display] returns normally,
    the message id of the record is cleared, its channel id is kept, the
    registry is saved, and a further [_update_display] changes nothing. *)
Theorem sync_not_found_clears_message_id env g w gs ch :
  by_guild w !! g = Some gs ->
  GuildState.mode gs = "message" ->
  truthy_id (GuildState.channel_id gs) = true ->
  truthy_id (GuildState.message_id gs) = true ->
  channel_of env (default 0 (GuildState.channel_id gs)) = Ok ch ->
  fetch_message env ch (default 0 (GuildState.message_id gs)) = Raise NotFound ->
  exists w',
    _update_display env g w = (Ok tt, w') /\
    GuildState.message_id (record_of g w') = None /\
    GuildState.channel_id (record_of g w') = GuildState.channel_id gs /\
    state_file w' = State.save (by_guild w') /\
    forall env', _update_display env' g w' = (Ok tt, w').
Proof.
  intros Hg Hm Hc Hi Hch Hf. exists (unbound g gs w).
  split; [now apply update_display_not_found with ch|].
  unfold record_of. cbn. rewrite lookup_insert_eq. cbn.
  repeat split. intros env'. now apply update_display_unbound.
Qed.

Lemma sync_not_found_clears_message_id_witness :
  exists w',
    _update_display message_gone 1 bound_world = (Ok tt, w') /\
    GuildState.message_id (record_of 1 w') = None /\
    GuildState.channel_id (record_of 1 w') = Some 70 /\
    state_file w' = State.save (by_guild w') /\
    forall env', _update_display env' 1 w' = (Ok tt, w').
Proof.
  apply (sync_not_found_clears_message_id message_gone 1 bound_world
           bound_record 70); reflexivity.
Defined.

(** C7: for every record and every message URL whose guild segment is not
    the current guild, [bind] only sends the guild-mismatch response: the
    record and the file are as before. *)
Theorem bind_other_guild_rejected env i g url g' c m w :
  guild i = Some g ->
  parse_message_link url = Ok (Some (g', c, m)) ->
  g' <> g ->
  let out := Tank.bind env i url w in
  fst out = send_message env "That message is not in this server." true /\
  record_of g (snd out) = record_of g w /\
  state_file (snd out) = state_file w /\
  (fst out = Ok tt ->
   sent (snd out)
   = (sent w ++ [Response "That message is not in this server." true])%list).
Proof.
  intros Hi Hp Hne. unfold Tank.bind. unfold_m. rewrite Hi, Hp. cbn.
  apply Z.eqb_neq in Hne. unfold record_of.
  destruct (by_guild w !! g) as [gs|] eqn:Hg; cbn; rewrite Hne; cbn;
    destruct (send_message env _ true) as [[]|e]; cbn;
    rewrite ?Hg, ?lookup_insert_eq; repeat split; auto; discriminate.
Qed.

Lemma bind_other_guild_rejected_witness :
  let out := Tank.bind calm in_guild_1 "https://discord.com/channels/2/70/700"
               bound_world in
  fst out = Ok tt /\
  record_of 1 (snd out) = bound_record /\
  state_file (snd out) = Absent /\
  (fst out = Ok tt ->
   sent (snd out) = [Response "That message is not in this server." true]).
Proof.
  apply (bind_other_guild_rejected calm in_guild_1 1
           "https://discord.com/channels/2/70/700" 2 70 700 bound_world);
    [reflexivity | reflexivity | discriminate].
Defined.

(** The assignment [gs.mode = kind.value] of [mode] comes before the check
    of the channel: whatever the record held, it is in channel-name mode
    after the rejected command, in memory only. *)
Lemma mode_without_channel_sets_mode env i g w :
  guild i = Some g ->
  let out := Tank.mode env i KChannelName None w in
  fst out = send_message env "Choose a channel to rename in channel_name mode." true /\
  GuildState.mode (record_of g (snd out)) = "channel_name" /\
  state_file (snd out) = state_file w.
Proof.
  intros Hi. unfold Tank.mode. unfold_m. rewrite Hi. cbn. unfold record_of.
  destruct (by_guild w !! g) as [gs|] eqn:Hg; cbn;
    rewrite lookup_alter, ?Hg, ?lookup_insert_eq; cbn;
    (case_decide; [|congruence]); cbn;
    destruct (send_message env _ true) as [[]|e]; cbn;
    rewrite lookup_alter, ?Hg, ?lookup_insert_eq;
    (case_decide; [|congruence]); cbn; auto.
Qed.

(** C2 at the failing input: guild 1 is in message mode; [/tank mode
    channel_name] with no channel answers with the validation message and
    writes no file, and the record is in channel-name mode afterwards. *)
Lemma mode_without_channel_changes_mode :
  let out := Tank.mode calm in_guild_1 KChannelName None bound_world in
  GuildState.mode (record_of 1 bound_world) = "message" /\
  fst out = Ok tt /\
  sent (snd out)
  = [Response "Choose a channel to rename in channel_name mode." true] /\
  state_file (snd out) = Absent /\
  GuildState.mode (record_of 1 (snd out)) = "channel_name".
Proof.
  destruct (mode_without_channel_sets_mode calm in_guild_1 1 bound_world eq_refl)
    as (H1 & H2 & H3).
  cbv zeta. rewrite H2. repeat split; try assumption.
Qed.

(** A later command saves the mode that the rejected command left. *)
Example rejected_mode_is_saved_later :
  let w1 := snd (Tank.mode calm in_guild_1 KChannelName None bound_world) in
  let w2 := snd (Tank.increment calm in_guild_1 w1) in
  State.new (state_file w2)
  = Some (Ok {[ 1 := GuildState.set_days 4 (GuildState.set_mode "channel_name"
                                             bound_record) ]}).
Proof. vm_compute. reflexivity. Qed.

Lemma record_of_unbound g gs w :
  record_of g (unbound g gs w) = GuildState.set_message_id None gs.
Proof. unfold record_of, unbound. cbn. now rewrite lookup_insert_eq. Qed.

(** The record of [g] after [_update_display]: as before, or in message
    mode with the message id cleared. *)
Lemma update_display_record env g w :
  let w' := snd (_update_display env g w) in
  record_of g w' = record_of g w \/
  (GuildState.mode (record_of g w) = "message" /\
   record_of g w' = GuildState.set_message_id None (record_of g w)).
Proof.
  destruct (update_display_effect env g w) as [[H _]|(gs & Hg & Hm & H & _)]; cbv zeta.
  - left. unfold record_of. now rewrite H.
  - right. rewrite H, record_of_unbound. unfold record_of. now rewrite Hg.
Qed.

Lemma respond_record env text e g w :
  record_of g (snd (respond env text e w)) = record_of g w.
Proof.
  unfold respond. unfold_m. now destruct (send_message env text e) as [[]|].
Qed.

(** C9: switching to channel-name mode with a channel leaves the channel
    id and the message id of the message binding as they were, switching
    to message mode leaves the channel to rename as it was, and a record
    can hold both bindings at once. *)
Theorem mode_switch_keeps_other_binding env i g w :
  guild i = Some g ->
  (forall ch,
     let w' := snd (Tank.mode env i KChannelName (Some ch) w) in
     GuildState.channel_id (record_of g w') = GuildState.channel_id (record_of g w) /\
     GuildState.message_id (record_of g w') = GuildState.message_id (record_of g w) /\
     GuildState.mode (record_of g w') = "channel_name" /\
     GuildState.channel_name_channel_id (record_of g w') = Some ch) /\
  (forall ch,
     let w' := snd (Tank.mode env i KMessage ch w) in
     GuildState.channel_name_channel_id (record_of g w')
     = GuildState.channel_name_channel_id (record_of g w) /\
     GuildState.mode (record_of g w') = "message") /\
  (exists w0,
     reachable w0 /\
     GuildState.mode (record_of 1 w0) = "channel_name" /\
     GuildState.channel_id (record_of 1 w0) = Some 70 /\
     GuildState.message_id (record_of 1 w0) = Some 700 /\
     GuildState.channel_name_channel_id (record_of 1 w0) = Some 5).
Proof.
  intros Hi. split; [|split].
  - intros ch. unfold Tank.mode. unfold_m. rewrite Hi. cbn.
    set (w1 := match by_guild w !! g with
               | Some _ => (Ok (), w)
               | None => _
               end).
    assert (H1 : fst w1 = Ok tt /\ by_guild (snd w1) !! g = Some (record_of g w)).
    { unfold w1, record_of.
      destruct (by_guild w !! g) eqn:Hg; cbn; rewrite ?Hg, ?lookup_insert_eq; auto. }
    destruct w1 as [r1 w1']. cbn in H1. destruct H1 as [-> H1]. cbn.
    rewrite lookup_alter, H1. case_decide; [|congruence]. cbn.
    match goal with
    | |- context [_update_display env g ?w2] =>
        pose proof (update_display_record env g w2) as HU;
        assert (HR : record_of g w2
                     = GuildState.set_channel_name_channel_id (Some ch)
                         (GuildState.set_mode "channel_name" (record_of g w)))
          by (unfold record_of at 1; cbn;
              rewrite !lookup_alter, H1;
              repeat (case_decide; [|congruence]); reflexivity);
        destruct (_update_display env g w2) as [r w3] eqn:E
    end.
    cbn in HU. rewrite HR in HU. cbn in HU.
    assert (HU' : record_of g w3
                  = GuildState.set_channel_name_channel_id (Some ch)
                      (GuildState.set_mode "channel_name" (record_of g w)))
      by (destruct HU as [HU|[HU _]]; [exact HU|discriminate]).
    assert (G : forall w4,
      record_of g w4 = record_of g w3 ->
      GuildState.channel_id (record_of g w4) = GuildState.channel_id (record_of g w) /\
      GuildState.message_id (record_of g w4) = GuildState.message_id (record_of g w) /\
      GuildState.mode (record_of g w4) = "channel_name" /\
      GuildState.channel_name_channel_id (record_of g w4) = Some ch).
    { intros w4 ->. rewrite HU'. cbn. auto. }
    destruct r as [[]|e]; cbn; [|now apply G].
    destruct (by_guild w3 !! g) eqn:Hg3; cbn; [|now apply G].
    destruct (send_message env _ true) as [[]|]; cbn; now apply G.
  - intros ch. unfold Tank.mode. unfold_m. rewrite Hi. cbn.
    set (w1 := match by_guild w !! g with
               | Some _ => (Ok (), w)
               | None => _
               end).
    assert (H1 : fst w1 = Ok tt /\ by_guild (snd w1) !! g = Some (record_of g w)).
    { unfold w1, record_of.
      destruct (by_guild w !! g) eqn:Hg; cbn; rewrite ?Hg, ?lookup_insert_eq; auto. }
    destruct w1 as [r1 w1']. cbn in H1. destruct H1 as [-> H1]. cbn.
    rewrite lookup_alter, H1. case_decide; [|congruence]. cbn.
    match goal with
    | |- context [_update_display env g ?w2] =>
        pose proof (update_display_record env g w2) as HU;
        assert (HR : record_of g w2
                     = GuildState.set_mode "message" (record_of g w))
          by (unfold record_of at 1; cbn;
              rewrite !lookup_alter, H1;
              repeat (case_decide; [|congruence]); reflexivity);
        destruct (_update_display env g w2) as [r w3] eqn:E
    end.
    cbn in HU. rewrite HR in HU. cbn in HU.
    assert (G : forall w4,
      record_of g w4 = record_of g w3 ->
      GuildState.channel_name_channel_id (record_of g w4)
      = GuildState.channel_name_channel_id (record_of g w) /\
      GuildState.mode (record_of g w4) = "message").
    { intros w4 ->. destruct HU as [->|[_ ->]]; cbn; auto. }
    destruct r as [[]|e]; cbn; [|now apply G].
    destruct (by_guild w3 !! g) eqn:Hg3; cbn; [|now apply G].
    destruct (send_message env _ true) as [[]|]; cbn; now apply G.
  - exists (snd (handle calm in_guild_1 (Mode KChannelName (Some 5))
                   (snd (handle calm in_guild_1 Post initial)))).
    split.
    + eapply reachable_step; [eapply reachable_step; [apply reachable_initial|]|];
        now apply step_command.
    + vm_compute. repeat split.
Qed.

Lemma mode_switch_keeps_other_binding_witness :
  let w' := snd (Tank.mode calm in_guild_1 KChannelName (Some 5) bound_world) in
  GuildState.channel_id (record_of 1 w') = Some 70 /\
  GuildState.message_id (record_of 1 w') = Some 700 /\
  GuildState.mode (record_of 1 w') = "channel_name" /\
  GuildState.channel_name_channel_id (record_of 1 w') = Some 5.
Proof.
  exact (proj1 (mode_switch_keeps_other_binding calm in_guild_1 1 bound_world
                  eq_refl) 5).
Defined.

End Effects.

(** ** The counter is never negative *)

Section Invariant.
Local Open Scope string_scope.

Lemma preserves_ret {A} P (a : A) : preserves P (ret a).
Proof. now intros w. Qed.

Lemma preserves_raise {A} P e : preserves P (@raise A e).
Proof. now intros w. Qed.

Lemma preserves_call {A} P (r : result A) : preserves P (call r).
Proof. now intros w. Qed.

Lemma preserves_and_then {A B} P (m : M A) (k : A -> M B) :
  preserves P m -> (forall a, preserves P (k a)) -> preserves P (and_then m k).
Proof.
  intros Hm Hk w Hw. unfold and_then. specialize (Hm w Hw).
  destruct (m w) as [[a|e] w']; cbn in *; [now apply Hk|assumption].
Qed.

Lemma preserves_attempt {A} P (m : M A) : preserves P m -> preserves P (attempt m).
Proof.
  intros Hm w Hw. unfold attempt. specialize (Hm w Hw).
  now destruct (m w) as [r w'].
Qed.

Lemma good_emit e : preserves good (emit e).
Proof. now intros w. Qed.

Lemma good_assert_guild i : preserves good (assert_guild i).
Proof. intros w Hw. unfold assert_guild. now destruct (guild i). Qed.

Lemma good_read g : preserves good (read g).
Proof. intros w Hw. unfold read. now destruct (by_guild w !! g). Qed.

Lemma good_for_guild g : preserves good (for_guild g).
Proof.
  intros w [Hr Hf]. unfold for_guild.
  destruct (by_guild w !! g) eqn:Hg; cbn; [now split|].
  split; [|assumption]. intros k gs. cbn. rewrite lookup_insert.
  case_decide; [intros [= <-]; cbn; lia|apply Hr].
Qed.

Lemma good_update g f : keeps_nonneg f -> preserves good (update g f).
Proof.
  intros Hk w [Hr Hf]. split; [|assumption]. intros k gs. cbn.
  rewrite lookup_alter. case_decide; [|apply Hr].
  subst k. destruct (by_guild w !! g) as [gs0|] eqn:Hg; cbn; [|discriminate].
  intros [= <-]. apply Hk. eapply Hr, Hg.
Qed.

Lemma init_to_dict_days g gs :
  exists gs', GuildState.init g (GuildState.to_dict gs) = Some (Ok gs') /\
              GuildState.days gs' = GuildState.days gs.
Proof.
  destruct gs as [g0 d [mid|] [cid|] md tpl [ccid|]]; eexists; split; reflexivity.
Qed.

Lemma load_items_nonneg l acc m :
  nonneg_registry acc ->
  Forall (fun kv => 0 <= GuildState.days kv.2) l ->
  State.load_items acc (map saved_item l) = Some (Ok m) ->
  nonneg_registry m.
Proof.
  intros Hacc Hl. revert acc Hacc. induction Hl as [|[g gs] l Hg _ IH]; intros acc Hacc.
  - cbn. now intros [= <-].
  - cbn [map saved_item State.load_items fst snd].
    rewrite int_of_str_of_int.
    destruct (init_to_dict_days g gs) as (gs' & -> & Hd).
    apply IH. intros k x. rewrite lookup_insert.
    case_decide; [intros [= <-]; cbn in Hg; lia|apply Hacc].
Qed.

Lemma save_nonneg m : nonneg_registry m -> nonneg_file (State.save m).
Proof.
  intros Hm m'. unfold State.new. rewrite save_items. cbn [State.load].
  apply load_items_nonneg.
  - intros k x. now rewrite lookup_empty.
  - apply Forall_forall. intros [g gs] Hin. cbn.
    eapply Hm, elem_of_map_to_list, Hin.
Qed.

Lemma good_save : preserves good save.
Proof. intros w [Hr Hf]. split; [assumption|]. cbn. now apply save_nonneg. Qed.

Lemma good_respond env text e : preserves good (respond env text e).
Proof.
  unfold respond. apply preserves_and_then; [apply preserves_call|].
  intros _. apply good_emit.
Qed.

Ltac keeps := intros gs' Hgs'; cbn; lia.

Ltac pres :=
  cbv zeta;
  repeat first
    [ apply preserves_ret | apply preserves_raise | apply preserves_call
    | apply good_emit | apply good_assert_guild | apply good_read
    | apply good_for_guild | apply good_save | apply good_respond
    | apply good_update; [keeps]
    | apply preserves_attempt
    | apply preserves_and_then; [|intros ?]
    | match goal with
      | |- preserves _ (match ?x with _ => _ end) => destruct x
      | |- preserves _ (if ?x then _ else _) => destruct x
      end ].

Lemma good_update_display env g : preserves good (_update_display env g).
Proof. unfold _update_display. pres. Qed.

Lemma good_handle env i c : accepted c -> preserves good (handle env i c).
Proof.
  intros Hc. destruct c; cbn [handle];
    unfold ping, sync_here, Tank.post, Tank.set_days, Tank.increment, Tank.reset,
      Tank.show, Tank.bind, Tank.template, Tank.mode;
    pres; try apply good_update_display; pres.
  all: try (apply good_update; intros gs' Hgs'; cbn in *; lia).
Qed.

Lemma good_refresh_displays env guilds : preserves good (refresh_displays env guilds).
Proof.
  induction guilds as [|g guilds IH]; cbn [refresh_displays].
  - apply preserves_ret.
  - apply preserves_and_then; [apply good_for_guild|intros _].
    apply preserves_and_then; [|intros _; apply IH].
    apply preserves_attempt, good_update_display.
Qed.

Lemma good_on_ready env guilds : preserves good (on_ready env guilds).
Proof.
  unfold on_ready. apply preserves_and_then; [|intros _; apply good_refresh_displays].
  apply preserves_attempt, preserves_call.
Qed.

Lemma good_initial : good initial.
Proof.
  split; cbn.
  - intros g gs. now rewrite lookup_empty.
  - intros m. cbn. intros [= <-] g gs. now rewrite lookup_empty.
Qed.

Lemma good_step w w' : good w -> step w w' -> good w'.
Proof.
  intros Hw Hs. destruct Hs as [env i c w Hc|env guilds w|w m Hm].
  - now apply good_handle.
  - now apply good_on_ready.
  - destruct Hw as [Hr Hf]. split; cbn; [now apply Hf|assumption].
Qed.

Lemma good_reachable w : reachable w -> good w.
Proof.
  induction 1 as [|w w' _ IH Hs]; [apply good_initial|]. eapply good_step; eauto.
Qed.

(** C8: the record created on first access has the value 0, every step of
    the bot (a command accepted by the command tree, with [/tank set]
    between 0 and 10000, the refresh of [on_ready], a restart that loads
    the file) keeps the values of the registry and of the file
    non-negative, and so every record of a reachable world has a value
    that is at least 0. *)
Theorem value_never_negative :
  (forall g, GuildState.days (GuildState.fresh g) = 0) /\
  (forall w w', good w -> step w w' -> good w') /\
  (forall w g gs,
     reachable w -> by_guild w !! g = Some gs -> 0 <= GuildState.days gs).
Proof.
  split; [reflexivity|]. split; [apply good_step|].
  intros w g gs Hw Hg. destruct (good_reachable w Hw) as [Hr _]. eapply Hr, Hg.
Qed.

Lemma value_never_negative_witness :
  let w := snd (handle calm in_guild_1 Increment
                  (snd (handle calm in_guild_1 (SetDays 41) initial))) in
  by_guild w !! 1 = Some (GuildState.set_days 42 (GuildState.fresh 1)) /\
  0 <= GuildState.days (GuildState.set_days 42 (GuildState.fresh 1)).
Proof.
  intros w.
  assert (Hg : by_guild w !! 1 = Some (GuildState.set_days 42 (GuildState.fresh 1)))
    by (vm_compute; reflexivity).
  split; [exact Hg|].
  refine (proj2 (proj2 value_never_negative) w 1 _ _ Hg).
  eapply reachable_step; [eapply reachable_step; [apply reachable_initial|]|];
    apply step_command; cbn; lia.
Defined.

End Invariant.

(** ** The pattern of message links *)

Section Links.
Import Text.
Local Open Scope string_scope.
Local Arguments String.append : simpl nomatch.

Lemma strip_prefix_app p s : Re.strip_prefix p (p ++ s) = Some s.
Proof.
  induction p as [|a p IH]; simpl; [now destruct s|].
  now rewrite Ascii.eqb_refl.
Qed.

Lemma strip_prefix_inv p s r : Re.strip_prefix p s = Some r -> s = p ++ r.
Proof.
  revert s; induction p as [|a p IH]; intros s; simpl.
  - destruct s; now intros [= ->].
  - destruct s as [|b s]; [discriminate|].
    destruct (Ascii.eqb_spec a b) as [->|]; [|discriminate].
    intros H. now rewrite (IH _ H).
Qed.

Lemma lit_app p k g s : Re.lit p k g (p ++ s) = k g s.
Proof. unfold Re.lit. now rewrite strip_prefix_app. Qed.



Lemma alt_left a b k g s x : a k g s = Some x -> Re.alt a b k g s = Some x.
Proof. unfold Re.alt. now intros ->. Qed.

(** The longest run of digits is tried first. *)
Lemma star_digits_greedy m r k x :
  sall is_digit m = true -> starts_with_digit r = false ->
  k m r = Some x -> Re.star_digits (m ++ r) k = Some x.
Proof.
  revert k; induction m as [|a m IH]; intros k Hm Hr Hk.
  - simpl. destruct r as [|c r]; [assumption|].
    simpl in Hr. cbn [Re.star_digits]. now rewrite Hr.
  - simpl in Hm. apply andb_prop in Hm as [Ha Hm].
    change (String a m ++ r) with (String a (m ++ r)).
    cbn [Re.star_digits]. rewrite Ha.
    now rewrite (IH (fun m0 r0 => k (String a m0) r0) Hm Hr Hk).
Qed.



Lemma numeric_inv s :
  numeric s = true ->
  exists a m, s = String a m /\ is_digit a = true /\ sall is_digit m = true.
Proof.
  unfold numeric. destruct s as [|a m]; [discriminate|]. simpl.
  intros [Ha Hm]%andb_prop. now exists a, m.
Qed.

Lemma digits1_greedy m r k g x :
  numeric m = true -> starts_with_digit r = false ->
  k (g ++ [m])%list r = Some x -> Re.digits1 k g (m ++ r) = Some x.
Proof.
  intros (a & m' & -> & Ha & Hm)%numeric_inv Hr Hk.
  change (String a m' ++ r) with (String a (m' ++ r)).
  unfold Re.digits1. rewrite Ha. now apply star_digits_greedy.
Qed.





End Links.

(** ** What [bind] accepts as a message link *)

Section MessageLinks.
Import Text.
Local Open Scope string_scope.
Local Arguments String.append : simpl nomatch.


(** A text that begins with a link matches, and the groups are the three
    segments. *)
Lemma rmatch_link sub app gs cs ms rest :
  sub = "" \/ sub = "canary." \/ sub = "ptb." ->
  app = "" \/ app = "app" ->
  numeric gs = true -> numeric cs = true -> numeric ms = true ->
  starts_with_digit rest = false ->
  Re.rmatch Re.message_url (link_text sub app gs cs ms rest) = Some [gs; cs; ms].
Proof.
  intros Hsub Happ Hg Hc Hm Hr.
  unfold Re.rmatch, Re.message_url, Re.seq, link_text.
  rewrite lit_app.
  assert (T : Re.digits1
                (Re.lit "/" (Re.digits1 (Re.lit "/" (Re.digits1 (fun g _ => Some g)))))
                [] (gs ++ "/" ++ cs ++ "/" ++ ms ++ rest) = Some [gs; cs; ms]).
  { apply digits1_greedy; [assumption|reflexivity|]. rewrite lit_app.
    apply digits1_greedy; [assumption|reflexivity|]. rewrite lit_app.
    now apply digits1_greedy. }
  assert (A : Re.opt (Re.lit "app")
                (Re.lit ".com/channels/"
                  (Re.digits1 (Re.lit "/" (Re.digits1 (Re.lit "/"
                     (Re.digits1 (fun g _ => Some g)))))))
                [] (app ++ ".com/channels/" ++ gs ++ "/" ++ cs ++ "/" ++ ms ++ rest)
              = Some [gs; cs; ms]).
  { set (K := Re.lit ".com/channels/" _).
    set (X := ".com/channels/" ++ _) in *.
    assert (HK : K [] X = Some [gs; cs; ms])
      by (unfold K, X; now rewrite lit_app).
    destruct Happ as [->| ->].
    - assert (E : Re.lit "app" K [] ("" ++ X) = None) by reflexivity.
      unfold Re.opt, Re.alt. now rewrite E.
    - apply alt_left. now rewrite lit_app. }
  set (K := Re.lit "discord" _).
  set (X := "discord" ++ _) in *.
  assert (HK : K [] X = Some [gs; cs; ms])
    by (unfold K, X; now rewrite lit_app).
  destruct Hsub as [->|[->| ->]].
  - assert (E1 : Re.lit "canary." K [] ("" ++ X) = None) by reflexivity.
    assert (E2 : Re.lit "ptb." K [] ("" ++ X) = None) by reflexivity.
    unfold Re.opt, Re.alt. now rewrite E1, E2.
  - apply alt_left, alt_left. now rewrite lit_app.
  - assert (E1 : Re.lit "canary." K [] ("ptb." ++ X) = None) by reflexivity.
    unfold Re.opt. apply alt_left. unfold Re.alt. rewrite E1.
    now rewrite lit_app.
Qed.









Lemma rmatch_link_prefix url gs cs ms :
  link_prefix url gs cs ms -> Re.rmatch Re.message_url url = Some [gs; cs; ms].
Proof. intros [sub app rest -> Hsub Happ Hg Hc Hm Hr]. now apply rmatch_link. Qed.

Lemma link_prefix_unique url gs cs ms gs' cs' ms' :
  link_prefix url gs cs ms -> link_prefix url gs' cs' ms' ->
  gs = gs' /\ cs = cs' /\ ms = ms'.
Proof.
  intros H%rmatch_link_prefix H'%rmatch_link_prefix.
  rewrite H in H'. now injection H' as -> -> ->.
Qed.









End MessageLinks.

(** * Further properties *)

(** ** The channel name *)

Section SafeNameMore.
Import Text.

Lemma lower_name_char c : is_name_char c = true -> lower_char c = c.
Proof.
  destruct c as [[] [] [] [] [] [] [] []]; vm_compute; intros H;
    try discriminate; reflexivity.
Qed.

Lemma smap_id f p s :
  (forall c, p c = true -> f c = c) -> sall p s = true -> smap f s = s.
Proof.
  intros Hf. induction s as [|a s IH]; simpl; [reflexivity|].
  intros [Ha Hs]%andb_prop. now rewrite (Hf _ Ha), (IH Hs).
Qed.

Lemma slice_to_short n s : (String.length s <= n)%nat -> slice_to n s = s.
Proof.
  revert s; induction n as [|n IH]; intros [|a s]; simpl; try reflexivity; try lia.
  intros H. rewrite IH; [reflexivity|lia].
Qed.

Lemma safe_name_of_name (text : string) :
  sall is_name_char text = true -> (String.length text <= 95)%nat ->
  safe_name text = text.
Proof.
  intros Hc Hl. unfold safe_name, lower, sub_unsafe.
  rewrite (smap_id lower_char is_name_char text lower_name_char Hc).
  rewrite (smap_id _ is_name_char text); [|intros c ->; reflexivity|assumption].
  now apply slice_to_short.
Qed.

(** X1: A text that is already a channel name of at most 95 characters is
    left as it is. *)
Theorem safe_name_fixed (text : string) :
  sall is_name_char text = true -> (String.length text <= 95)%nat ->
  safe_name text = text.
Proof. intros Hc Hl. now apply safe_name_of_name. Qed.

Lemma safe_name_fixed_witness : safe_name "tank-talk-12" = "tank-talk-12"%string.
Proof. apply safe_name_fixed; [reflexivity|simpl; lia]. Defined.

(** X2: Computing the channel name of a channel name changes nothing. *)
Theorem safe_name_idempotent (text : string) :
  safe_name (safe_name text) = safe_name text.
Proof.
  apply safe_name_of_name.
  - unfold safe_name. apply slice_to_sall, sub_unsafe_sall.
  - unfold safe_name. apply slice_to_length.
Qed.

End SafeNameMore.

(** ** The record and the file *)

Section StoreMore.

(** X3: [GuildState(g, gs.to_dict())] has the fields of [gs] and the guild id
    [g]. *)
Theorem init_of_to_dict (g : Z) (gs : GuildState.t) :
  GuildState.init g (GuildState.to_dict gs) = Some (Ok (rekeyed g gs)).
Proof.
  destruct gs as [g0 d [mid|] [cid|] md tpl [ccid|]]; reflexivity.
Qed.

Lemma str_of_int_inj : Inj (=) (=) Py.str_of_int.
Proof.
  intros x y H. assert (E : Py.int_of_str (Py.str_of_int x)
                            = Py.int_of_str (Py.str_of_int y)) by now rewrite H.
  rewrite !int_of_str_of_int in E. now injection E.
Qed.

(** X4: The file that [save] writes has one item for each guild of the
    registry, and no two items have the same key. *)
Theorem save_keys_distinct (m : gmap Z GuildState.t) :
  State.save m = Image (JObj (saved_items m)) /\
  NoDup (saved_items m).*1 /\
  length (saved_items m) = size m.
Proof.
  split; [apply save_items|]. unfold saved_items. split.
  - replace ((map saved_item (map_to_list m)).*1)
      with (Py.str_of_int <$> (map_to_list m).*1).
    + apply NoDup_fmap_2_strong; [|apply NoDup_fst_map_to_list].
      intros x y _ _. apply str_of_int_inj.
    + induction (map_to_list m) as [|[g gs] l IH]; [reflexivity|].
      cbn. now rewrite IH.
  - now rewrite length_map, length_map_to_list.
Qed.

(** X5: [load] on a registry that is not empty: the records of the file come
    over those of the registry, which keeps its other records; with no
    file the registry is emptied. *)
Theorem load_over_registry (acc m : gmap Z GuildState.t) :
  keyed_by_guild_id m ->
  State.load acc (State.save m) = Some (Ok (m ∪ acc)) /\
  State.load acc Absent = Some (Ok ∅).
Proof.
  intros Hm. split; [|reflexivity].
  rewrite save_items. cbn [State.load]. rewrite load_items_saved.
  - rewrite insert_all_union by apply NoDup_fst_map_to_list.
    now rewrite list_to_map_to_list.
  - apply Forall_forall. intros [g gs] Hin. cbn.
    apply Hm. now apply elem_of_map_to_list.
Qed.

Lemma load_over_registry_witness :
  State.load {[ 2 := GuildState.fresh 2 ]} (State.save {[ 1 := bound_record ]})
  = Some (Ok ({[ 1 := bound_record ]} ∪ {[ 2 := GuildState.fresh 2 ]})).
Proof.
  apply (proj1 (load_over_registry {[ 2 := GuildState.fresh 2 ]}
                  {[ 1 := bound_record ]}
                  ltac:(intros g gs [<- <-]%lookup_singleton_Some; reflexivity))).
Defined.

End StoreMore.

(** ** The registry and the synchroniser *)

Section SyncMore.
Local Open Scope string_scope.

Ltac unfold_m :=
  unfold and_then, ret, raise, call, attempt, emit, respond, update, save, read,
    for_guild, assert_guild, with_event, with_by_guild, with_state_file in *.

Ltac break_match :=
  match goal with
  | |- context [match ?x with _ => _ end] => destruct x eqn:?
  | |- context [if ?x then _ else _] => destruct x eqn:?
  end.

Lemma for_guild_run g w : for_guild g w = (Ok tt, ensure g w).
Proof. unfold ensure, for_guild. now destruct (by_guild w !! g). Qed.

Lemma ensure_lookup g w : by_guild (ensure g w) !! g = Some (record_of g w).
Proof.
  unfold ensure, for_guild, record_of.
  destruct (by_guild w !! g) eqn:Hg; cbn; [assumption|apply lookup_insert_eq].
Qed.

Lemma ensure_lookup_ne g g' w :
  g' <> g -> by_guild (ensure g w) !! g' = by_guild w !! g'.
Proof.
  intros Hne. unfold ensure, for_guild.
  destruct (by_guild w !! g) eqn:Hg; cbn; [reflexivity|].
  now apply lookup_insert_ne.
Qed.

Lemma ensure_rest g w :
  state_file (ensure g w) = state_file w /\ sent (ensure g w) = sent w.
Proof. unfold ensure, for_guild. now destruct (by_guild w !! g). Qed.

(** X6: [for_guild] returns the record that the registry holds, or the default
    record that it stores; the records of the other guilds, the file and
    a second call change nothing. *)
Theorem for_guild_lazy (g : Z) (w : World) :
  let w' := snd (for_guild g w) in
  fst (for_guild g w) = Ok tt /\
  by_guild w' !! g = Some (default (GuildState.fresh g) (by_guild w !! g)) /\
  (forall g', g' <> g -> by_guild w' !! g' = by_guild w !! g') /\
  state_file w' = state_file w /\
  for_guild g w' = (Ok tt, w').
Proof.
  cbv zeta. rewrite for_guild_run. cbn [fst snd].
  split; [reflexivity|]. split; [apply ensure_lookup|].
  split; [intros g'; apply ensure_lookup_ne|].
  split; [apply ensure_rest|].
  unfold for_guild. now rewrite ensure_lookup.
Qed.

(** X7: With nothing bound, [_update_display] does nothing and calls nothing:
    in message mode when the channel id or the message id is [None] or 0,
    in channel-name mode when the channel to rename is [None] or 0, and in
    any other mode. *)
Theorem update_display_nothing_bound (env : Env) (g : Z) (w : World) (gs : GuildState.t) :
  by_guild w !! g = Some gs ->
  (if (GuildState.mode gs =? "message") then
     truthy_id (GuildState.channel_id gs) && truthy_id (GuildState.message_id gs)
   else if (GuildState.mode gs =? "channel_name") then
     truthy_id (GuildState.channel_name_channel_id gs)
   else false) = false ->
  _update_display env g w = (Ok tt, w).
Proof.
  intros Hg Hb. unfold _update_display. unfold_m. rewrite Hg.
  destruct (GuildState.mode gs =? "message"); [now rewrite Hb|].
  destruct (GuildState.mode gs =? "channel_name"); [now rewrite Hb|reflexivity].
Qed.

Lemma update_display_nothing_bound_witness :
  _update_display message_gone 1
    {| by_guild := {[ 1 := GuildState.set_message_id (Some 0) bound_record ]};
       state_file := Absent; sent := [] |}
  = (Ok tt,
     {| by_guild := {[ 1 := GuildState.set_message_id (Some 0) bound_record ]};
        state_file := Absent; sent := [] |}).
Proof.
  apply (update_display_nothing_bound message_gone 1 _
           (GuildState.set_message_id (Some 0) bound_record));
    reflexivity.
Defined.

Lemma update_display_changes (env : Env) (g : Z) (w : World) :
  let w' := snd (_update_display env g w) in
  (record_of g w' = record_of g w \/
   record_of g w' = GuildState.set_message_id None (record_of g w)) /\
  (forall g', g' <> g -> by_guild w' !! g' = by_guild w !! g').
Proof.
  cbv zeta. split.
  - destruct (update_display_record env g w) as [H|[_ H]]; auto.
  - intros g' Hne.
    destruct (update_display_effect env g w) as [[H _]|(gs & Hg & Hm & H & _)].
    + now rewrite H.
    + rewrite H. unfold unbound. cbn. now apply lookup_insert_ne.
Qed.

(** X8: [_update_display] never assigns the value, the template, the mode or
    a channel: the record of the guild is as before, but for a message id
    that it may have cleared, and the other records are as before. *)
Theorem update_display_frame (env : Env) (g : Z) (w : World) :
  let w' := snd (_update_display env g w) in
  (record_of g w' = record_of g w \/
   record_of g w' = GuildState.set_message_id None (record_of g w)) /\
  (forall g', g' <> g -> by_guild w' !! g' = by_guild w !! g').
Proof. apply update_display_changes. Qed.

Lemma truthy_id_some o : truthy_id o = true -> exists z, o = Some z /\ z <> 0.
Proof.
  destruct o as [z|]; simpl; [|discriminate].
  intros H. exists z. split; [reflexivity|].
  apply negb_true_iff, Z.eqb_neq in H. exact H.
Qed.

(** X9: What [_update_display] shows is the rendering of the record, at
    the target the record names: it sends nothing; or, in message mode,
    it edits the message that the record's message id names, fetched
    from the channel that the record's channel id names, to the
    rendered text; or, in channel-name mode, it renames the channel that
    the record names for it to the channel name of the rendered text,
    which has at most 95 characters in [a-z0-9-]. *)
Theorem update_display_shows_rendering (env : Env) (g : Z) (w : World) :
  let w' := snd (_update_display env g w) in
  let gs := record_of g w in
  sent w' = sent w \/
  (exists cid mid ch msg text,
     GuildState.mode gs = "message" /\
     GuildState.channel_id gs = Some cid /\ cid <> 0 /\
     GuildState.message_id gs = Some mid /\ mid <> 0 /\
     channel_of env cid = Ok ch /\
     fetch_message env ch mid = Ok msg /\
     _render_text env gs = Ok text /\
     edit_message env msg text = Ok tt /\
     sent w' = (sent w ++ [MessageEdit msg text])%list) \/
  (exists cid ch text,
     GuildState.mode gs = "channel_name" /\
     GuildState.channel_name_channel_id gs = Some cid /\ cid <> 0 /\
     channel_of env cid = Ok ch /\
     _render_text env gs = Ok text /\
     edit_channel env ch (Text.safe_name text) = Ok tt /\
     sent w' = (sent w ++ [ChannelRename ch (Text.safe_name text)])%list /\
     (String.length (Text.safe_name text) <= 95)%nat /\
     Text.sall Text.is_name_char (Text.safe_name text) = true).
Proof.
  assert (L : forall text,
    (String.length (Text.safe_name text) <= 95)%nat /\
    Text.sall Text.is_name_char (Text.safe_name text) = true).
  { intros text. unfold Text.safe_name. split.
    - apply slice_to_length.
    - apply slice_to_sall, sub_unsafe_sall. }
  cbv zeta. unfold _update_display, record_of. unfold_m.
  generalize dependent Text.safe_name. intros safe L. cbn.
  destruct (by_guild w !! g) as [gs|] eqn:Hg; cbn; [|auto].
  destruct (GuildState.mode gs =? "message") eqn:Hm.
  - apply String.eqb_eq in Hm.
    destruct (truthy_id (GuildState.channel_id gs)) eqn:Tc; cbn; [|auto].
    destruct (truthy_id (GuildState.message_id gs)) eqn:Tm; cbn; [|auto].
    destruct (truthy_id_some _ Tc) as (cid & Ec & Nc).
    destruct (truthy_id_some _ Tm) as (mid & Em & Nm).
    rewrite Ec, Em. cbn.
    destruct (channel_of env cid) as [ch|] eqn:Hch; cbn; [|auto].
    destruct (fetch_message env ch mid) as [msg|e] eqn:Hf; cbn.
    + destruct (_render_text env gs) as [text|] eqn:Hr; cbn; [|auto].
      destruct (edit_message env msg text) as [[]|] eqn:He; cbn; [|auto].
      right. left. exists cid, mid, ch, msg, text. repeat split; auto.
    + destruct e; cbn; auto.
  - destruct (GuildState.mode gs =? "channel_name") eqn:Hn; cbn; [|auto].
    apply String.eqb_eq in Hn.
    destruct (truthy_id (GuildState.channel_name_channel_id gs)) eqn:Tc; cbn; [|auto].
    destruct (truthy_id_some _ Tc) as (cid & Ec & Nc).
    rewrite Ec. cbn.
    destruct (channel_of env cid) as [ch|] eqn:Hch; cbn; [|auto].
    destruct (_render_text env gs) as [text|] eqn:Hr; cbn; [|auto].
    destruct (edit_channel env ch (safe text)) as [[]|e] eqn:He; cbn.
    + right. right. exists cid, ch, text. repeat split; auto; apply L.
    + destruct e; cbn; auto.
Qed.

End SyncMore.

(** ** The counter commands *)

Section CommandsMore.
Local Open Scope string_scope.
Local Arguments String.append : simpl nomatch.

Lemma quiet_respond env text e : quiet (respond env text e).
Proof.
  intros w. unfold respond, and_then, call, emit.
  now destruct (send_message env text e) as [[]|].
Qed.

Lemma quiet_read_then {A} g (k : GuildState.t -> M A) :
  (forall gs, quiet (k gs)) -> quiet (and_then (read g) k).
Proof.
  intros Hk w. unfold and_then, read.
  destruct (by_guild w !! g); [apply Hk|now split].
Qed.

Lemma record_of_prefix g f w :
  record_of g (saved (assign g f (ensure g w))) = f (record_of g w).
Proof.
  unfold record_of at 1. unfold saved, assign, save, update. cbn.
  now rewrite lookup_alter_eq, ensure_lookup.
Qed.

Lemma lookup_prefix g g' f w :
  g' <> g ->
  by_guild (saved (assign g f (ensure g w))) !! g' = by_guild w !! g'.
Proof.
  intros Hne. unfold saved, assign, save, update. cbn.
  rewrite lookup_alter_ne by congruence. now apply ensure_lookup_ne.
Qed.

(** After an assignment and [state.save()], the synchroniser and a reply:
    the file holds the registry, the record has the assignment, with the
    message id cleared if the bound message was gone, and the other
    records are as before. *)
Lemma assign_save_display {A} env g f (k : M A) w :
  quiet k ->
  let w' := snd (and_then (_update_display env g) (fun _ => k)
                   (saved (assign g f (ensure g w)))) in
  state_file w' = State.save (by_guild w') /\
  (record_of g w' = f (record_of g w) \/
   record_of g w' = GuildState.set_message_id None (f (record_of g w))) /\
  (forall g', g' <> g -> by_guild w' !! g' = by_guild w !! g').
Proof.
  intros Hk. cbv zeta. set (w3 := saved (assign g f (ensure g w))).
  assert (H3 : state_file w3 = State.save (by_guild w3)) by reflexivity.
  unfold and_then.
  pose proof (update_display_effect env g w3) as HE.
  pose proof (update_display_changes env g w3) as [HR HO].
  destruct (_update_display env g w3) as [r w4]. cbn [fst snd] in *.
  assert (H4 : state_file w4 = State.save (by_guild w4)).
  { destruct HE as [[Hb Hf]|(gs & _ & _ & -> & _)]; [|reflexivity].
    now rewrite Hf, Hb. }
  assert (G : forall w5,
    by_guild w5 = by_guild w4 -> state_file w5 = state_file w4 ->
    state_file w5 = State.save (by_guild w5) /\
    (record_of g w5 = f (record_of g w) \/
     record_of g w5 = GuildState.set_message_id None (f (record_of g w))) /\
    (forall g', g' <> g -> by_guild w5 !! g' = by_guild w !! g')).
  { intros w5 Hb Hf. split; [now rewrite Hf, Hb|]. split.
    - unfold record_of at 1 3. rewrite Hb.
      fold (record_of g w4). unfold w3 in HR. now rewrite record_of_prefix in HR.
    - intros g' Hne. rewrite Hb, (HO g' Hne). now apply lookup_prefix. }
  destruct r as [a|e]; [|now apply G].
  destruct (Hk w4) as [Hb Hf]. now apply G.
Qed.

Lemma set_days_run env i g d w :
  guild i = Some g ->
  Tank.set_days env i d w
  = and_then (_update_display env g)
      (fun _ => and_then (read g) (fun gs =>
         respond env ("Set to **" ++ Py.str_of_int (GuildState.days gs) ++ "**.") true))
      (saved (assign g (GuildState.set_days d) (ensure g w))).
Proof.
  intros Hi. unfold Tank.set_days, assert_guild. rewrite Hi.
  unfold and_then at 1 2. unfold ret. now rewrite for_guild_run.
Qed.

Lemma increment_run env i g w :
  guild i = Some g ->
  Tank.increment env i w
  = and_then (_update_display env g)
      (fun _ => and_then (read g) (fun gs =>
         respond env ("Now **" ++ Py.str_of_int (GuildState.days gs) ++ "**.") true))
      (saved (assign g (fun gs => GuildState.set_days (GuildState.days gs + 1) gs)
                (ensure g w))).
Proof.
  intros Hi. unfold Tank.increment, assert_guild. rewrite Hi.
  unfold and_then at 1 2. unfold ret. now rewrite for_guild_run.
Qed.

Lemma reset_run env i g w :
  guild i = Some g ->
  Tank.reset env i w
  = and_then (_update_display env g)
      (fun _ => respond env "Reset to **0**." true)
      (saved (assign g (GuildState.set_days 0) (ensure g w))).
Proof.
  intros Hi. unfold Tank.reset, assert_guild. rewrite Hi.
  unfold and_then at 1 2. unfold ret. now rewrite for_guild_run.
Qed.

Lemma set_days_effect (env : Env) (i : Interaction) (g d : Z) (w : World) :
  guild i = Some g ->
  let w' := snd (Tank.set_days env i d w) in
  GuildState.days (record_of g w') = d /\
  state_file w' = State.save (by_guild w') /\
  (record_of g w' = GuildState.set_days d (record_of g w) \/
   record_of g w'
   = GuildState.set_message_id None (GuildState.set_days d (record_of g w))) /\
  (forall g', g' <> g -> by_guild w' !! g' = by_guild w !! g').
Proof.
  intros Hi. cbv zeta. rewrite (set_days_run env i g d w Hi).
  destruct (assign_save_display env g (GuildState.set_days d)
              (and_then (read g) (fun gs =>
                 respond env ("Set to **" ++ Py.str_of_int (GuildState.days gs)
                              ++ "**.") true)) w)
    as (Hf & Hr & Ho).
  { apply quiet_read_then. intros gs. apply quiet_respond. }
  repeat split; auto. now destruct Hr as [-> | ->].
Qed.

(** X10: [/tank set d]: whatever the synchroniser does or raises, the value of
    the guild is [d], the file holds the registry, the other fields of the
    record are as before (the message id may have been cleared) and so are
    the other records. *)
Theorem set_days_sets_and_saves (env : Env) (i : Interaction) (g d : Z) (w : World) :
  guild i = Some g ->
  let w' := snd (Tank.set_days env i d w) in
  GuildState.days (record_of g w') = d /\
  state_file w' = State.save (by_guild w') /\
  (record_of g w' = GuildState.set_days d (record_of g w) \/
   record_of g w'
   = GuildState.set_message_id None (GuildState.set_days d (record_of g w))) /\
  (forall g', g' <> g -> by_guild w' !! g' = by_guild w !! g').
Proof. intros Hi. now apply set_days_effect. Qed.

Lemma set_days_sets_and_saves_witness :
  let w' := snd (Tank.set_days message_gone in_guild_1 5000 bound_world) in
  GuildState.days (record_of 1 w') = 5000 /\
  state_file w' = State.save (by_guild w').
Proof.
  intros w'.
  destruct (set_days_sets_and_saves message_gone in_guild_1 1 5000 bound_world
              eq_refl) as (H1 & H2 & _).
  split; assumption.
Defined.

Lemma increment_adds_one_aux (env : Env) (i : Interaction) (g : Z) (w : World) :
  guild i = Some g ->
  let w' := snd (Tank.increment env i w) in
  GuildState.days (record_of g w') = GuildState.days (record_of g w) + 1 /\
  state_file w' = State.save (by_guild w') /\
  (forall g', g' <> g -> by_guild w' !! g' = by_guild w !! g').
Proof.
  intros Hi. cbv zeta. rewrite (increment_run env i g w Hi).
  destruct (assign_save_display env g
              (fun gs => GuildState.set_days (GuildState.days gs + 1) gs)
              (and_then (read g) (fun gs =>
                 respond env ("Now **" ++ Py.str_of_int (GuildState.days gs)
                              ++ "**.") true)) w)
    as (Hf & Hr & Ho).
  { apply quiet_read_then. intros gs. apply quiet_respond. }
  repeat split; auto. now destruct Hr as [-> | ->].
Qed.

(** X11: [/tank inc] adds exactly one to the value and saves, with no upper
    bound, whatever the synchroniser does or raises. *)
Theorem increment_adds_one (env : Env) (i : Interaction) (g : Z) (w : World) :
  guild i = Some g ->
  let w' := snd (Tank.increment env i w) in
  GuildState.days (record_of g w') = GuildState.days (record_of g w) + 1 /\
  state_file w' = State.save (by_guild w') /\
  (forall g', g' <> g -> by_guild w' !! g' = by_guild w !! g').
Proof. intros Hi. now apply increment_adds_one_aux. Qed.

Lemma increment_adds_one_witness :
  GuildState.days (record_of 1 (snd (Tank.increment calm in_guild_1 bound_world)))
  = GuildState.days (record_of 1 bound_world) + 1.
Proof.
  exact (proj1 (increment_adds_one calm in_guild_1 1 bound_world eq_refl)).
Defined.

(** X12: [/tank reset] sets the value to 0 and saves, whatever the synchroniser
    does or raises. *)
Theorem reset_sets_zero (env : Env) (i : Interaction) (g : Z) (w : World) :
  guild i = Some g ->
  let w' := snd (Tank.reset env i w) in
  GuildState.days (record_of g w') = 0 /\
  state_file w' = State.save (by_guild w') /\
  (forall g', g' <> g -> by_guild w' !! g' = by_guild w !! g').
Proof.
  intros Hi. cbv zeta. rewrite (reset_run env i g w Hi).
  destruct (assign_save_display env g (GuildState.set_days 0)
              (respond env "Reset to **0**." true) w) as (Hf & Hr & Ho).
  { apply quiet_respond. }
  repeat split; auto. now destruct Hr as [-> | ->].
Qed.

Lemma reset_sets_zero_witness :
  GuildState.days (record_of 1 (snd (Tank.reset message_gone in_guild_1 bound_world)))
  = 0.
Proof.
  exact (proj1 (reset_sets_zero message_gone in_guild_1 1 bound_world eq_refl)).
Defined.

(** X13: [n] times [/tank inc] add [n] to the value: past 10000 too, the bound
    of [/tank set] being no bound of the counter. *)
Theorem increments_add (env : Env) (i : Interaction) (g : Z) (n : nat) (w : World) :
  guild i = Some g ->
  GuildState.days (record_of g (increments env i n w))
  = GuildState.days (record_of g w) + Z.of_nat n.
Proof.
  intros Hi. induction n as [|n IH]; cbn [increments]; [lia|].
  destruct (increment_adds_one_aux env i g (increments env i n w) Hi) as [H _].
  rewrite H, IH. lia.
Qed.

Lemma increments_add_witness :
  GuildState.days (record_of 1 (increments calm in_guild_1 3 bound_world)) = 6.
Proof. exact (increments_add calm in_guild_1 1 3 bound_world eq_refl). Defined.

End CommandsMore.

(** ** Showing, templates, posting and binding *)

Section HandlersMore.
Local Open Scope string_scope.
Local Arguments String.append : simpl nomatch.

Lemma read_ensure g w : read g (ensure g w) = (Ok (record_of g w), ensure g w).
Proof. unfold read. now rewrite ensure_lookup. Qed.

Lemma record_of_ensure g w : record_of g (ensure g w) = record_of g w.
Proof. unfold record_of at 1. now rewrite ensure_lookup. Qed.

Lemma show_run env i g w :
  guild i = Some g ->
  Tank.show env i w
  = and_then (call (_render_text env (record_of g w)))
      (fun text => respond env text false) (ensure g w).
Proof.
  intros Hi. unfold Tank.show, assert_guild. rewrite Hi.
  unfold and_then at 1 2 3. unfold ret. now rewrite for_guild_run, read_ensure.
Qed.

Lemma respond_run env text e w :
  fst (respond env text e w) = send_message env text e /\
  by_guild (snd (respond env text e w)) = by_guild w /\
  state_file (snd (respond env text e w)) = state_file w /\
  (fst (respond env text e w) = Ok tt ->
   sent (snd (respond env text e w)) = (sent w ++ [Response text e])%list).
Proof.
  unfold respond, and_then, call, emit.
  destruct (send_message env text e) as [[]|]; cbn; repeat split; auto; discriminate.
Qed.

(** X14: [/tank set d] and then [/tank show], under any two environments: for
    a template whose only brace constructs are value placeholders, the
    reply of [show] is the template filled with the decimal string of
    [d], in public. *)
Theorem show_after_set (env env' : Env) (i : Interaction) (g d : Z) (w : World)
    (segs : list segment) :
  guild i = Some g ->
  GuildState.template (record_of g w) = template_of segs ->
  Forall brace_free segs ->
  let w1 := snd (Tank.set_days env i d w) in
  let out := Tank.show env' i w1 in
  fst out = send_message env' (filled d segs) false /\
  (fst out = Ok tt ->
   sent (snd out) = (sent w1 ++ [Response (filled d segs) false])%list).
Proof.
  intros Hi Ht Hs. cbv zeta.
  destruct (set_days_effect env i g d w Hi) as (Hd & _ & Hr & _).
  set (w1 := snd (Tank.set_days env i d w)) in *.
  assert (Hr' : _render_text env' (record_of g w1) = Ok (filled d segs)).
  { unfold _render_text. rewrite Hd.
    replace (GuildState.template (record_of g w1)) with (template_of segs)
      by (destruct Hr as [-> | ->]; cbn; now rewrite Ht).
    now apply format_template. }
  rewrite (show_run env' i g w1 Hi). unfold and_then, call. rewrite Hr'.
  destruct (respond_run env' (filled d segs) false (ensure g w1)) as (H1 & _ & _ & H4).
  split; [assumption|]. intros H. rewrite (H4 H).
  now destruct (ensure_rest g w1) as [_ ->].
Qed.

Lemma show_after_set_witness :
  let w1 := snd (Tank.set_days calm in_guild_1 5000 bound_world) in
  fst (Tank.show calm in_guild_1 w1) = Ok tt /\
  (fst (Tank.show calm in_guild_1 w1) = Ok tt ->
   sent (snd (Tank.show calm in_guild_1 w1))
   = (sent w1 ++ [Response "5000 days since Sean and Patrick talked about tanks"
                    false])%list).
Proof.
  apply (show_after_set calm calm in_guild_1 1 5000 bound_world
           [Days; Lit " days since Sean and Patrick talked about tanks"]);
    [reflexivity | reflexivity | repeat constructor].
Defined.

(** X15: The check of [/tank template]: [sub in text] holds exactly when [text]
    is some text, [sub], and some text. *)
Theorem contains_substring (sub text : string) :
  Tank.contains sub text = true <-> exists pre post, text = pre ++ sub ++ post.
Proof.
  split.
  - induction text as [|a text IH]; cbn [Tank.contains].
    + destruct (Re.strip_prefix sub "") as [r|] eqn:E; [|discriminate].
      intros _. exists "", r. exact (strip_prefix_inv _ _ _ E).
    + destruct (Re.strip_prefix sub (String a text)) as [r|] eqn:E.
      * intros _. exists "", r. exact (strip_prefix_inv _ _ _ E).
      * intros (pre & post & ->)%IH. now exists (String a pre), post.
  - intros (pre & post & ->). induction pre as [|a pre IH].
    + cbn [String.append].
      destruct (sub ++ post) eqn:E; cbn [Tank.contains]; rewrite <- E;
        now rewrite strip_prefix_app.
    + change (String a pre ++ sub ++ post) with (String a (pre ++ sub ++ post)).
      cbn [Tank.contains]. rewrite IH. now destruct (Re.strip_prefix sub _).
Qed.

Lemma template_run env i g text w :
  guild i = Some g ->
  Tank.template env i text w
  = if negb (Tank.contains "{days}" text)
    then respond env "Template must include `{days}`." true (ensure g w)
    else and_then (_update_display env g)
           (fun _ => respond env "Template updated." true)
           (saved (assign g (GuildState.set_template text) (ensure g w))).
Proof.
  intros Hi. unfold Tank.template, assert_guild. rewrite Hi.
  unfold and_then at 1 2. unfold ret. rewrite for_guild_run.
  now destruct (Tank.contains "{days}" text).
Qed.

(** X16: [/tank template] with a text that does not contain [{days}]: the reply
    is the validation message, and the record and the file are as before.
    The check comes before any assignment. *)
Theorem template_without_placeholder_rejected (env : Env) (i : Interaction) (g : Z)
    (text : string) (w : World) :
  guild i = Some g ->
  Tank.contains "{days}" text = false ->
  let out := Tank.template env i text w in
  fst out = send_message env "Template must include `{days}`." true /\
  record_of g (snd out) = record_of g w /\
  state_file (snd out) = state_file w.
Proof.
  intros Hi Hc. cbv zeta. rewrite (template_run env i g text w Hi), Hc. cbn [negb].
  destruct (respond_run env "Template must include `{days}`." true (ensure g w))
    as (H1 & H2 & H3 & _).
  split; [assumption|]. split.
  - unfold record_of at 1. rewrite H2. apply record_of_ensure.
  - rewrite H3. apply ensure_rest.
Qed.

Lemma template_without_placeholder_rejected_witness :
  let out := Tank.template calm in_guild_1 "no placeholder" bound_world in
  fst out = Ok tt /\
  record_of 1 (snd out) = bound_record /\
  state_file (snd out) = Absent.
Proof.
  apply (template_without_placeholder_rejected calm in_guild_1 1
           "no placeholder" bound_world); reflexivity.
Defined.

(** X17: [/tank template] with a text that contains [{days}]: the template of
    the record is the text and the file holds the registry, whatever the
    synchroniser does or raises, even if the text cannot be rendered; the
    value is as before. *)
Theorem template_with_placeholder_stored (env : Env) (i : Interaction) (g : Z)
    (text : string) (w : World) :
  guild i = Some g ->
  Tank.contains "{days}" text = true ->
  let w' := snd (Tank.template env i text w) in
  GuildState.template (record_of g w') = text /\
  GuildState.days (record_of g w') = GuildState.days (record_of g w) /\
  state_file w' = State.save (by_guild w').
Proof.
  intros Hi Hc. cbv zeta. rewrite (template_run env i g text w Hi), Hc. cbn [negb].
  destruct (assign_save_display env g (GuildState.set_template text)
              (respond env "Template updated." true) w (quiet_respond _ _ _))
    as (Hf & Hr & _).
  repeat split; auto; now destruct Hr as [-> | ->].
Qed.

Lemma template_with_placeholder_stored_witness :
  let w' := snd (Tank.template calm in_guild_1 "{days} {foo}" bound_world) in
  GuildState.template (record_of 1 w') = "{days} {foo}" /\
  GuildState.days (record_of 1 w') = 3 /\
  state_file w' = State.save (by_guild w').
Proof.
  apply (template_with_placeholder_stored calm in_guild_1 1 "{days} {foo}"
           bound_world); reflexivity.
Defined.

End HandlersMore.

(** ** Posting and binding *)

Section BindMore.
Local Open Scope string_scope.
Local Arguments String.append : simpl nomatch.

Lemma post_run env i g w :
  guild i = Some g ->
  Tank.post env i w
  = and_then (call (_render_text env (record_of g w))) (fun text =>
      and_then (respond env text false) (fun _ =>
      and_then (call (original_response env)) (fun msg =>
      and_then (update g (GuildState.set_mode "message")) (fun _ =>
      and_then (update g (GuildState.set_channel_id (Some (msg_channel_id msg)))) (fun _ =>
      and_then (update g (GuildState.set_message_id (Some (msg_id msg)))) (fun _ =>
      save))))))
      (ensure g w).
Proof.
  intros Hi. unfold Tank.post, assert_guild. rewrite Hi.
  unfold and_then at 1 2 3. unfold ret. now rewrite for_guild_run, read_ensure.
Qed.

(** X18: [/tank post] with a template that does not render: the exception of
    the rendering comes out, nothing is sent, and the record and the file
    are as before. *)
Theorem post_unrenderable (env : Env) (i : Interaction) (g : Z) (w : World) (e : exn) :
  guild i = Some g ->
  _render_text env (record_of g w) = Raise e ->
  let out := Tank.post env i w in
  fst out = Raise e /\
  sent (snd out) = sent w /\
  record_of g (snd out) = record_of g w /\
  state_file (snd out) = state_file w.
Proof.
  intros Hi Hr. cbv zeta. rewrite (post_run env i g w Hi).
  unfold and_then at 1. unfold call. rewrite Hr. cbn [fst snd].
  split; [reflexivity|]. split; [apply ensure_rest|].
  split; [apply record_of_ensure|apply ensure_rest].
Qed.

Lemma post_unrenderable_witness :
  let w := {| by_guild := {[ 1 := with_template "{days} {foo}" bound_record ]};
              state_file := Absent; sent := [] |} in
  let out := Tank.post calm in_guild_1 w in
  fst out = Raise KeyError /\
  sent (snd out) = [] /\
  record_of 1 (snd out) = with_template "{days} {foo}" bound_record /\
  state_file (snd out) = Absent.
Proof.
  intros w.
  apply (post_unrenderable calm in_guild_1 1 w KeyError); reflexivity.
Defined.

(** X19: [/tank post] when the text renders, the reply is sent and the message
    of the reply is obtained: the text is sent in public, the record is
    in message mode and bound to that message, its other fields are as
    before, and the file holds the registry. *)
Theorem post_binds (env : Env) (i : Interaction) (g : Z) (w : World)
    (text : string) (msg : Message) :
  guild i = Some g ->
  _render_text env (record_of g w) = Ok text ->
  send_message env text false = Ok tt ->
  original_response env = Ok msg ->
  let out := Tank.post env i w in
  fst out = Ok tt /\
  sent (snd out) = (sent w ++ [Response text false])%list /\
  record_of g (snd out) = bound_to (msg_channel_id msg) (msg_id msg) (record_of g w) /\
  state_file (snd out) = State.save (by_guild (snd out)).
Proof.
  intros Hi Hr Hs Ho. cbv zeta. rewrite (post_run env i g w Hi).
  unfold and_then, call, respond, and_then, call, emit, update, save.
  rewrite Hr, Hs, Ho. cbn.
  destruct (ensure_rest g w) as [_ ->].
  split; [reflexivity|]. split; [reflexivity|]. split; [|reflexivity].
  unfold record_of at 1. cbn. now rewrite !lookup_alter_eq, ensure_lookup.
Qed.

Lemma post_binds_witness :
  let out := Tank.post calm in_guild_1 initial in
  fst out = Ok tt /\
  sent (snd out)
  = [Response "0 days since Sean and Patrick talked about tanks" false] /\
  record_of 1 (snd out) = bound_to 70 700 (GuildState.fresh 1) /\
  state_file (snd out) = State.save (by_guild (snd out)).
Proof.
  apply (post_binds calm in_guild_1 1 initial
           "0 days since Sean and Patrick talked about tanks"
           {| msg_id := 700; msg_channel_id := 70; msg_author_id := 1 |});
    reflexivity.
Defined.

Lemma bind_run env i g url w :
  guild i = Some g ->
  Tank.bind env i url w
  = and_then (call (parse_message_link url)) (fun parsed =>
      match parsed with
      | None => respond env "Invalid message URL." true
      | Some (guild_id, channel_id, message_id) =>
          if negb (guild_id =? g)%Z then
            respond env "That message is not in this server." true
          else
            and_then (call (channel_of env channel_id)) (fun channel =>
            and_then (attempt (call (fetch_message env channel message_id))) (fun r =>
            match r with
            | Raise NotFound => respond env "Could not fetch that message." true
            | Raise e => raise e
            | Ok msg =>
                if negb (msg_author_id msg =? bot_user_id env)%Z then
                  respond env
                    "I can only bind to **my own** messages. Use /tank post to create one."
                    true
                else
                  and_then (update g (GuildState.set_mode "message")) (fun _ =>
                  and_then (update g (GuildState.set_channel_id (Some channel_id))) (fun _ =>
                  and_then (update g (GuildState.set_message_id (Some message_id))) (fun _ =>
                  and_then save (fun _ =>
                  and_then (_update_display env g) (fun _ =>
                  respond env "Bound to that message." true)))))
            end))
      end) (ensure g w).
Proof.
  intros Hi. unfold Tank.bind, assert_guild. rewrite Hi.
  unfold and_then at 1 2. unfold ret. now rewrite for_guild_run.
Qed.

Lemma respond_unchanged env text g w :
  let out := respond env text true (ensure g w) in
  fst out = send_message env text true /\
  record_of g (snd out) = record_of g w /\
  state_file (snd out) = state_file w.
Proof.
  cbv zeta. destruct (respond_run env text true (ensure g w)) as (H1 & H2 & H3 & _).
  split; [assumption|]. split.
  - unfold record_of at 1. rewrite H2. apply record_of_ensure.
  - rewrite H3. apply ensure_rest.
Qed.

(** X20: [/tank bind] with a text that is no message link: the reply says so,
    and the record and the file are as before. *)
Theorem bind_invalid_url (env : Env) (i : Interaction) (g : Z) (url : string) (w : World) :
  guild i = Some g ->
  parse_message_link url = Ok None ->
  let out := Tank.bind env i url w in
  fst out = send_message env "Invalid message URL." true /\
  record_of g (snd out) = record_of g w /\
  state_file (snd out) = state_file w.
Proof.
  intros Hi Hp. cbv zeta. rewrite (bind_run env i g url w Hi).
  unfold and_then at 1. unfold call. rewrite Hp. apply respond_unchanged.
Qed.

Lemma bind_invalid_url_witness :
  let out := Tank.bind calm in_guild_1 "discord.com/channels/1/70/700" bound_world in
  fst out = Ok tt /\
  record_of 1 (snd out) = bound_record /\
  state_file (snd out) = Absent.
Proof.
  apply (bind_invalid_url calm in_guild_1 1 "discord.com/channels/1/70/700"
           bound_world); reflexivity.
Defined.

(** X21: [/tank bind] with a link of this guild to a message that is gone or
    that another user wrote: the reply says which, and the record and the
    file are as before. *)
Theorem bind_message_not_bindable (env : Env) (i : Interaction) (g c m ch : Z)
    (url : string) (w : World) :
  guild i = Some g ->
  parse_message_link url = Ok (Some (g, c, m)) ->
  channel_of env c = Ok ch ->
  let out := Tank.bind env i url w in
  (fetch_message env ch m = Raise NotFound ->
   fst out = send_message env "Could not fetch that message." true /\
   record_of g (snd out) = record_of g w /\
   state_file (snd out) = state_file w) /\
  (forall msg,
     fetch_message env ch m = Ok msg -> msg_author_id msg <> bot_user_id env ->
     fst out
     = send_message env
         "I can only bind to **my own** messages. Use /tank post to create one."
         true /\
     record_of g (snd out) = record_of g w /\
     state_file (snd out) = state_file w).
Proof.
  intros Hi Hp Hch. cbv zeta. split.
  - intros Hf.
    assert (E : Tank.bind env i url w
                = respond env "Could not fetch that message." true (ensure g w)).
    { rewrite (bind_run env i g url w Hi). unfold and_then, call, attempt.
      now rewrite Hp, Z.eqb_refl, Hch, Hf. }
    rewrite E. apply respond_unchanged.
  - intros msg Hf Hne. apply Z.eqb_neq in Hne.
    assert (E : Tank.bind env i url w
                = respond env
                    "I can only bind to **my own** messages. Use /tank post to create one."
                    true (ensure g w)).
    { rewrite (bind_run env i g url w Hi). unfold and_then, call, attempt.
      now rewrite Hp, Z.eqb_refl, Hch, Hf, Hne. }
    rewrite E. apply respond_unchanged.
Qed.

Lemma bind_message_not_bindable_witness :
  let url := "https://discord.com/channels/1/70/701" in
  (let out := Tank.bind message_gone in_guild_1 url bound_world in
   fst out = Ok tt /\ record_of 1 (snd out) = bound_record /\
   state_file (snd out) = Absent) /\
  (let out := Tank.bind foreign_messages in_guild_1 url bound_world in
   fst out = Ok tt /\ record_of 1 (snd out) = bound_record /\
   state_file (snd out) = Absent).
Proof.
  intros url. split.
  - apply (proj1 (bind_message_not_bindable message_gone in_guild_1 1 70 701 70
                    url bound_world eq_refl eq_refl eq_refl)).
    reflexivity.
  - apply (proj2 (bind_message_not_bindable foreign_messages in_guild_1 1 70 701 70
                    url bound_world eq_refl eq_refl eq_refl)
             {| msg_id := 701; msg_channel_id := 70; msg_author_id := 2 |});
      [reflexivity | discriminate].
Defined.




End BindMore.

(** ** Guilds apart, and the start of the bot *)

Section GuildsMore.
Local Open Scope string_scope.

(** A handler for the guild [g] changes the record of no other guild. *)
Lemma other_update_display env g g' r :
  g' <> g -> preserves (fun w => by_guild w !! g' = r) (_update_display env g).
Proof.
  intros Hne w Hw.
  destruct (update_display_changes env g w) as [_ H]. now rewrite (H g' Hne).
Qed.

Lemma other_for_guild g g' r :
  g' <> g -> preserves (fun w => by_guild w !! g' = r) (for_guild g).
Proof. intros Hne w Hw. fold (ensure g w). now rewrite ensure_lookup_ne. Qed.

Lemma other_update g g' f r :
  g' <> g -> preserves (fun w => by_guild w !! g' = r) (update g f).
Proof. intros Hne w Hw. cbn. now rewrite lookup_alter_ne by congruence. Qed.

Lemma other_quiet {A} (m : M A) g' r :
  quiet m -> preserves (fun w => by_guild w !! g' = r) m.
Proof. intros Hq w Hw. destruct (Hq w) as [-> _]. exact Hw. Qed.

Lemma quiet_save_registry g' r : preserves (fun w => by_guild w !! g' = r) save.
Proof. now intros w Hw. Qed.

Lemma quiet_read g : quiet (read g).
Proof. intros w. unfold read. now destruct (by_guild w !! g). Qed.

Lemma preserves_assert_guild {A} P i (k : Z -> M A) :
  (forall g, guild i = Some g -> preserves P (k g)) ->
  preserves P (and_then (assert_guild i) k).
Proof.
  intros Hk w Hw. unfold and_then, assert_guild.
  destruct (guild i) as [g|] eqn:Hi; [now apply (Hk g)|assumption].
Qed.

Ltac others :=
  cbv zeta;
  repeat first
    [ apply preserves_ret | apply preserves_raise | apply preserves_call
    | apply other_for_guild; congruence
    | apply other_update; congruence
    | apply other_update_display; congruence
    | apply quiet_save_registry
    | apply other_quiet, quiet_respond
    | apply other_quiet, quiet_read
    | apply preserves_attempt
    | apply preserves_assert_guild; intros ? ?
    | match goal with
      | |- preserves _ (and_then (_update_display _ _) _) =>
          apply preserves_and_then; [apply other_update_display; congruence|intros ?]
      | |- preserves _ (and_then _ _) => apply preserves_and_then; [|intros ?]
      | |- preserves _ (match ?x with _ => _ end) => destruct x
      | |- preserves _ (if ?x then _ else _) => destruct x
      end ].

(** X23: A command issued in one guild changes the record of no other guild,
    whatever the environment answers. *)
Theorem other_guilds_untouched (env : Env) (i : Interaction) (c : command)
    (g' : Z) (w : World) :
  guild i <> Some g' ->
  by_guild (snd (handle env i c w)) !! g' = by_guild w !! g'.
Proof.
  intros Hi.
  assert (H : preserves (fun w0 => by_guild w0 !! g' = by_guild w !! g')
                (handle env i c)).
  { destruct c; cbn [handle];
      unfold ping, sync_here, Tank.post, Tank.set_days, Tank.increment,
        Tank.reset, Tank.show, Tank.bind, Tank.template, Tank.mode;
      others. }
  now apply H.
Qed.

Lemma other_guilds_untouched_witness :
  by_guild (snd (handle message_gone in_guild_1 Reset
                   {| by_guild := {[ 1 := bound_record; 2 := GuildState.fresh 2 ]};
                      state_file := Absent; sent := [] |})) !! 2
  = Some (GuildState.fresh 2).
Proof.
  rewrite (other_guilds_untouched message_gone in_guild_1 Reset 2);
    [reflexivity|discriminate].
Defined.

Lemma keeps_records_refl m : keeps_records m m.
Proof. intros g gs Hg. exists gs. auto 10. Qed.

Lemma keeps_records_trans m1 m2 m3 :
  keeps_records m1 m2 -> keeps_records m2 m3 -> keeps_records m1 m3.
Proof.
  intros H12 H23 g gs Hg.
  destruct (H12 g gs Hg) as (gs2 & Hg2 & ? & ? & ? & ? & ?).
  destruct (H23 g gs2 Hg2) as (gs3 & Hg3 & ? & ? & ? & ? & ?).
  exists gs3. repeat split; congruence.
Qed.

Lemma keeps_records_ensure g w : keeps_records (by_guild w) (by_guild (ensure g w)).
Proof.
  intros k gs Hk. exists gs. split; [|auto 10].
  destruct (decide (k = g)) as [->|Hne].
  - rewrite ensure_lookup. unfold record_of. now rewrite Hk.
  - now rewrite ensure_lookup_ne.
Qed.

Lemma keeps_records_update_display env g w :
  keeps_records (by_guild w) (by_guild (snd (_update_display env g w))).
Proof.
  destruct (update_display_effect env g w) as [[H _]|(gs0 & Hg & _ & H & _)].
  - rewrite H. apply keeps_records_refl.
  - rewrite H. intros k gs Hk. unfold unbound. cbn.
    destruct (decide (k = g)) as [->|Hne].
    + rewrite lookup_insert_eq. eexists. split; [reflexivity|].
      rewrite Hg in Hk. injection Hk as <-. cbn. auto 10.
    + rewrite lookup_insert_ne by congruence. exists gs. auto 10.
Qed.

Lemma refresh_displays_effect env guilds w :
  fst (refresh_displays env guilds w) = Ok tt /\
  keeps_records (by_guild w) (by_guild (snd (refresh_displays env guilds w))) /\
  forall g, g ∈ guilds ->
    is_Some (by_guild (snd (refresh_displays env guilds w)) !! g).
Proof.
  revert w. induction guilds as [|g guilds IH]; intros w.
  - cbn [refresh_displays]. split; [reflexivity|]. split; [apply keeps_records_refl|].
    intros g Hg. now apply elem_of_nil in Hg.
  - assert (E : refresh_displays env (g :: guilds) w
                = refresh_displays env guilds
                    (snd (_update_display env g (ensure g w)))).
    { cbn [refresh_displays]. unfold and_then, attempt. rewrite for_guild_run.
      now destruct (_update_display env g (ensure g w)). }
    fold (refresh_displays env (g :: guilds)). rewrite E.
    pose proof (keeps_records_update_display env g (ensure g w)) as HK.
    set (w2 := snd (_update_display env g (ensure g w))) in *. clearbody w2.
    destruct (IH w2) as (H1 & H2 & H3).
    split; [assumption|].
    assert (K : keeps_records (by_guild w) (by_guild w2))
      by (eapply keeps_records_trans; [apply keeps_records_ensure|exact HK]).
    split; [exact (keeps_records_trans _ _ _ K H2)|].
    intros k [->|Hk]%elem_of_cons; [|now apply H3].
    destruct (HK g (record_of g w) (ensure_lookup g w)) as (gs2 & Hg2 & _).
    destruct (H2 g gs2 Hg2) as (gs3 & -> & _). eauto.
Qed.

(** X24: [on_ready] never raises, whatever the synchronisation of the commands
    and the refresh of the displays raise; afterwards every guild of the
    bot has a record, and every record is there with the value, the
    template, the mode and the channels that it had. *)
Theorem on_ready_never_fails (env : Env) (guilds : list Z) (w : World) :
  let out := on_ready env guilds w in
  fst out = Ok tt /\
  keeps_records (by_guild w) (by_guild (snd out)) /\
  (forall g, g ∈ guilds -> is_Some (by_guild (snd out) !! g)).
Proof.
  cbv zeta. unfold on_ready. unfold and_then at 1. unfold attempt, call.
  apply refresh_displays_effect.
Qed.

End GuildsMore.
